(** * A shallow embedding of the FTP client (package ftp)

    The development follows client.go, the passive-address file and
    transfer.go: Go strings are byte strings ([string]), Go [int] is [Z]
    with the 64-bit saturation of [strconv.Atoi] written out, the control
    connection is a queue of lines followed by a transport failure, and
    every effect (command written, reply read, dial, close of the data
    connection) is appended to a trace carried by the world state. *)

From Stdlib Require Import ZArith List String Ascii Bool Lia.
Import ListNotations.

Open Scope string_scope.
Open Scope Z_scope.

(* ================================================================== *)
(** ** Go strings *)

Module GoString.

(** [s[n:]] *)
Fixpoint drop (n : nat) (s : string) : string :=
  match n, s with
  | O, _ => s
  | S n', String _ s' => drop n' s'
  | S _, EmptyString => EmptyString
  end.

(** [s[:n]] *)
Fixpoint take (n : nat) (s : string) : string :=
  match n, s with
  | O, _ => EmptyString
  | S n', String c s' => String c (take n' s')
  | S _, EmptyString => EmptyString
  end.

(** [s[a:b]]; every use in the sources is guarded so that
    [a <= b <= len(s)], where Go does not panic. *)
Definition slice (a b : nat) (s : string) : string := take (b - a) (drop a s).

(** [strings.HasPrefix(s, p)] *)
Definition HasPrefix (s p : string) : bool := String.prefix p s.

(** [strings.Join(elems, sep)] *)
Definition Join (elems : list string) (sep : string) : string :=
  String.concat sep elems.

Definition LF : string := String (ascii_of_nat 10) EmptyString.

(** [strings.LastIndex(s, sep)], as an option: the scan keeps the
    right-most position at which [sep] is a prefix of the remainder. *)
Fixpoint last_index_from (sep s : string) (i : nat) : option nat :=
  match s with
  | EmptyString => if String.prefix sep EmptyString then Some i else None
  | String _ s' =>
      match last_index_from sep s' (S i) with
      | Some j => Some j
      | None => if String.prefix sep s then Some i else None
      end
  end.

Definition LastIndex (s sep : string) : Z :=
  match last_index_from sep s 0 with
  | Some j => Z.of_nat j
  | None => -1
  end.

End GoString.
Import GoString.

(* ================================================================== *)
(** ** Replies and errors *)

Record Reply := mkReply { Code : Z; Msg : string }.

(** The zero value [Reply{}]. *)
Definition Reply0 : Reply := mkReply 0 "".

Inductive NumErrKind := ErrSyntax | ErrRange.

Inductive CtxErr := Canceled | DeadlineExceeded.

(** Go's [error] interface, restricted to the dynamic types that occur. *)
Inductive error :=
| errorString (text : string)                         (* errors.New *)
| NumError (func num : string) (kind : NumErrKind)    (* *strconv.NumError *)
| TransportError (text : string)                      (* io.EOF, net errors *)
| ReplyError (r : Reply)                              (* a Reply returned as error *)
| ContextError (e : CtxErr).                          (* ctx.Err() *)

(** Modelled from the spec: the classification methods of the reply code
    are declared in a file that is not part of the given sources; section 4.1
    gives [PositiveComplete] as 2xx and [Positive] as 1xx/2xx/3xx. *)
Definition PositiveComplete (r : Reply) : bool :=
  (200 <=? Code r) && (Code r <? 300).

(** Modelled from the spec: see [PositiveComplete]. *)
Definition Positive (r : Reply) : bool :=
  (100 <=? Code r) && (Code r <? 400).

(** Modelled from the spec: the code constants are declared next to the
    classification methods; the values are those of the reply bodies used
    by the tests ("227 Entering Passive Mode", "229 Entering Extended
    Passive Mode"). *)
Definition CodePassive : Z := 227.

(** Modelled from the spec: see [CodePassive]. *)
Definition CodeExtendedPassive : Z := 229.

(* ================================================================== *)
(** ** strconv *)

Module strconv.

Definition is_digit (c : ascii) : bool :=
  let n := nat_of_ascii c in ((48 <=? n)%nat && (n <=? 57)%nat)%bool.

Definition digit_val (c : ascii) : Z := Z.of_nat (nat_of_ascii c) - 48.

(** The digit loop of [Atoi]/[ParseUint] in base 10, without overflow. *)
Fixpoint parse_digits (s : string) (acc : Z) : option Z :=
  match s with
  | EmptyString => Some acc
  | String c r =>
      if is_digit c then parse_digits r (acc * 10 + digit_val c) else None
  end.

Definition intSize : Z := 64.
Definition maxInt : Z := 2 ^ (intSize - 1) - 1.
Definition minInt : Z := - 2 ^ (intSize - 1).

Definition syntaxError (s : string) : error := NumError "Atoi" s ErrSyntax.
Definition rangeError (s : string) : error := NumError "Atoi" s ErrRange.

(** [strconv.Atoi]: an optional sign, then at least one decimal digit. A
    well-formed number outside the range of [int] yields the nearest
    bound together with a range error. *)
Definition Atoi (s : string) : Z * option error :=
  match s with
  | EmptyString => (0, Some (syntaxError s))
  | String c r =>
      let neg := Ascii.eqb c "-" in
      let body := if (neg || Ascii.eqb c "+")%bool then r else s in
      match body with
      | EmptyString => (0, Some (syntaxError s))
      | _ =>
          match parse_digits body 0 with
          | None => (0, Some (syntaxError s))
          | Some v =>
              if neg then
                if - minInt <? v then (minInt, Some (rangeError s))
                else (- v, None)
              else
                if maxInt <? v then (maxInt, Some (rangeError s))
                else (v, None)
          end
      end
  end.

Definition digit_char (d : Z) : ascii := ascii_of_nat (Z.to_nat (48 + d)).

Fixpoint format_digits (fuel : nat) (n : Z) (acc : string) : string :=
  match fuel with
  | O => acc
  | S f =>
      let acc' := String (digit_char (n mod 10)) acc in
      if n <? 10 then acc' else format_digits f (n / 10) acc'
  end.

(** [strconv.Itoa]; twenty digits cover every 64-bit integer. *)
Definition Itoa (n : Z) : string :=
  if n <? 0 then String "-" (format_digits 20 (- n) EmptyString)
  else format_digits 20 n EmptyString.

End strconv.
Import strconv.

(* ================================================================== *)
(** ** The world: control connection, data connection, trace *)

(** [net.TCPAddr]: [net.IP] is a byte slice. *)
Record TCPAddr := mkTCPAddr { addrIP : list Z; addrPort : Z }.

Inductive event :=
| EvSend (command : string)     (* PrintfLine on the control connection *)
| EvReply                       (* one reply read: a call of response *)
| EvDial (addr : TCPAddr)       (* dial of the data connection *)
| EvDataClose.                  (* Close of the data connection *)

Record World := mkWorld {
  ctl_in : list string;          (* lines the server delivers, in order *)
  ctl_in_err : error;            (* failure of ReadLine once they are consumed *)
  ctl_out_err : option error;    (* failure of PrintfLine, if any *)
  dial_err : option error;       (* failure of the data dial, if any *)
  data_close_err : option error; (* failure of closing the data transport *)
  trace : list event             (* effects so far, oldest first *)
}.

Definition set_in (w : World) (l : list string) : World :=
  mkWorld l (ctl_in_err w) (ctl_out_err w) (dial_err w) (data_close_err w) (trace w).

Definition log (w : World) (e : event) : World :=
  mkWorld (ctl_in w) (ctl_in_err w) (ctl_out_err w) (dial_err w)
          (data_close_err w) (trace w ++ [e])%list.

(** Computations over the world; [Panic] is a Go run-time panic. *)
Inductive outcome (A : Type) := Done (a : A) | Panic.
Arguments Done {A} a.
Arguments Panic {A}.

Definition M (A : Type) : Type := World -> outcome A * World.

Definition ret {A} (a : A) : M A := fun w => (Done a, w).

Definition bind {A B} (m : M A) (k : A -> M B) : M B :=
  fun w => match m w with
           | (Done a, w') => k a w'
           | (Panic, w') => (Panic, w')
           end.

Notation "x <- c1 ;; c2" := (bind c1 (fun x => c2))
  (at level 61, c1 at next level, right associativity).
Notation "' pat <- c1 ;; c2" := (bind c1 (fun x => match x with pat => c2 end))
  (at level 61, pat pattern, c1 at next level, right associativity).

Definition emit (e : event) : M unit := fun w => (Done tt, log w e).

(** [textproto.Conn.ReadLine] *)
Definition ReadLine : M (string * option error) :=
  fun w => match ctl_in w with
           | [] => (Done ("", Some (ctl_in_err w)), w)
           | line :: rest => (Done (line, None), set_in w rest)
           end.

(** [textproto.Conn.PrintfLine("%s", command)] *)
Definition PrintfLine (command : string) : M (option error) :=
  fun w => match ctl_out_err w with
           | Some e => (Done (Some e), w)
           | None => (Done None, log w (EvSend command))
           end.

(* ================================================================== *)
(** ** client.go: the reply reader *)

Definition errShortLine : error := errorString "Short response line in FTP".
Definition errExpectedSpace : error :=
  errorString "Expected space after FTP response code".

(** The [for] loop of [response]: it consumes lines until one starts with
    [endPrefix] or the transport fails. The recursion is on the queue of
    lines that [ReadLine] pops; the result is [lines], [err] and the
    lines left unread. *)
Fixpoint response_loop (endPrefix : string) (input : list string)
    (failure : error) (lines : list string)
  : list string * option error * list string :=
  match input with
  | [] => (lines, Some failure, [])
  | line :: rest =>
      if HasPrefix line endPrefix then
        ((lines ++ [drop (String.length endPrefix) line])%list, None, rest)
      else response_loop endPrefix rest failure (lines ++ [line])%list
  end.

(** [func (c *Client) response() (Reply, error)] *)
Definition response : M (Reply * option error) :=
  _ <- emit EvReply ;;
  '(line, err) <- ReadLine ;;
  match err with
  | Some e => ret (Reply0, Some e)
  | None =>
      if (String.length line <? 4)%nat then ret (Reply0, Some errShortLine)
      else
        match Atoi (take 3 line) with
        | (_, Some e) => ret (Reply0, Some e)
        | (code, None) =>
            match String.get 3 line with
            | Some "-"%char =>
                let endPrefix := Itoa code ++ " " in
                fun w =>
                  let '(lines, err, rest) :=
                    response_loop endPrefix (ctl_in w) (ctl_in_err w)
                                  [drop 4 line] in
                  (Done (mkReply code (Join lines LF), err), set_in w rest)
            | Some " "%char => ret (mkReply code (drop 4 line), None)
            | _ => ret (Reply0, Some errExpectedSpace)
            end
        end
  end.

(** [readResponse] is the name under which transfer.go and the tests call
    the reply reader. *)
Definition readResponse : M (Reply * option error) := response.

Definition world0 (input : list string) : World :=
  mkWorld input (TransportError "EOF") None None None [].

(* ================================================================== *)
(** ** The passive-address file: PASV and EPSV parsing *)

(** The longest prefix of decimal digits, and what follows it. *)
Fixpoint span_digits (s : string) : string * string :=
  match s with
  | EmptyString => (EmptyString, EmptyString)
  | String c r =>
      if is_digit c then
        let (d, rest) := span_digits r in (String c d, rest)
      else (EmptyString, s)
  end.

(** A match of [pasvRegexp] anchored at the start of [s]:
    [([0-9]+),] repeated [more] times, then a last [([0-9]+)]. Every
    group is greedy and a digit can never stand for the comma that has to
    follow, so each group is the whole run of digits. *)
Fixpoint match_groups (more : nat) (s : string) : option (list string * string) :=
  match span_digits s with
  | (EmptyString, _) => None
  | (d, rest) =>
      match more with
      | O => Some ([d], rest)
      | S k =>
          match rest with
          | String ","%char r =>
              match match_groups k r with
              | Some (ds, tl) => Some (d :: ds, tl)
              | None => None
              end
          | _ => None
          end
      end
  end.

(** [pasvRegexp.FindStringSubmatch(msg)]: the leftmost match; element 0 is
    the whole match, elements 1 to 6 the groups. [None] is Go's nil. *)
Fixpoint FindStringSubmatch (s : string) : option (list string) :=
  match match_groups 5 s with
  | Some (gs, _) => Some (Join gs "," :: gs)
  | None =>
      match s with
      | EmptyString => None
      | String _ s' => FindStringSubmatch s'
      end
  end.

(** The conversion [byte(n)] keeps the low eight bits. *)
Definition byte (n : Z) : Z := n mod 2 ^ 8.

Definition errPasvNoPort : error := errorString "PASV reply provided no port".
Definition errEpsvNoPort : error := errorString "EPSV reply provided no port".

(** [func parsePasvReply(msg string)], returning a TCP address and an error *)
Definition parsePasvReply (msg : string) : option TCPAddr * option error :=
  match FindStringSubmatch msg with
  | None => (None, Some errPasvNoPort)
  | Some numberStrings =>
      let numbers := map (fun s => byte (fst (Atoi s))) numberStrings in
      (Some {| addrIP := firstn 4 (skipn 1 numbers);
               addrPort := Z.lor (Z.shiftl (nth 5 numbers 0) 8)
                                 (nth 6 numbers 0) |},
       None)
  end.

Definition epsvStart : string := "(|||".
Definition epsvEnd : string := "|)".

(** [func parseEpsvReply(msg string) (port int, err error)] *)
Definition parseEpsvReply (msg : string) : Z * option error :=
  let start := LastIndex msg epsvStart in
  if start =? -1 then (0, Some errEpsvNoPort)
  else
    let start := start + Z.of_nat (String.length epsvStart) in
    let end_ := LastIndex msg epsvEnd in
    if ((end_ =? -1) || (end_ <=? start))%bool then (0, Some errEpsvNoPort)
    else Atoi (slice (Z.to_nat start) (Z.to_nat end_) msg).

(* ================================================================== *)
(** ** The client on the control connection

    The sequential embedding covers a context whose [Done()] channel is
    nil ([context.Background()], as in the tests): there [sendCommand]
    is [sendCmd] run by the caller. The cancellable path is the subject
    of module [Cancel]. *)

(** [net.Addr] as [conn.RemoteAddr()] returns it: a [*net.TCPAddr], or an
    address of another implementation reporting its own network name. *)
Inductive Addr :=
| AddrTCP (a : TCPAddr)
| AddrOther (network : string).

(** [Addr.Network()]; the method of [net.TCPAddr] returns the constant "tcp"
    for every TCP end point, IPv4 or IPv6. *)
Definition Network (a : Addr) : string :=
  match a with
  | AddrTCP _ => "tcp"
  | AddrOther n => n
  end.

Record Client := mkClient { RemoteAddr : Addr }.

(** [func (c *Client) sendCmd(command string) response] *)
Definition sendCmd (command : string) : M (Reply * option error) :=
  err <- PrintfLine command ;;
  match err with
  | Some e => ret (Reply0, Some e)
  | None => response
  end.

(** [sendCommand] when [ctx.Done() == nil]. *)
Definition sendCommand (command : string) : M (Reply * option error) :=
  sendCmd command.

Definition panic {A} : M A := fun w => (Panic, w).

(** [func (c *Client) obtainPassiveAddress4] *)
Definition obtainPassiveAddress4 : M (option TCPAddr * option error) :=
  '(reply, err) <- sendCommand "PASV" ;;
  match err with
  | Some e => ret (None, Some e)
  | None =>
      if negb (Code reply =? CodePassive) then ret (None, Some (ReplyError reply))
      else ret (parsePasvReply (Msg reply))
  end.

(** [func (c *Client) obtainPassiveAddress6]; the type assertion
    of [RemoteAddr()] to a [net.TCPAddr] pointer panics on any other
    address type. *)
Definition obtainPassiveAddress6 (c : Client) : M (option TCPAddr * option error) :=
  '(reply, err) <- sendCommand "EPSV" ;;
  match err with
  | Some e => ret (None, Some e)
  | None =>
      if negb (Code reply =? CodeExtendedPassive)
      then ret (None, Some (ReplyError reply))
      else
        match parseEpsvReply (Msg reply) with
        | (_, Some e) => ret (None, Some e)
        | (port, None) =>
            match RemoteAddr c with
            | AddrTCP a => ret (Some (mkTCPAddr (addrIP a) port), None)
            | AddrOther _ => panic
            end
        end
  end.

(** [func (c *Client) obtainPassiveAddress]: the call of
    [obtainPassiveAddress6] is a statement of its own, so both of its
    results are dropped and control continues with the PASV path. *)
Definition obtainPassiveAddress (c : Client) : M (option TCPAddr * option error) :=
  _ <- (if String.eqb (Network (RemoteAddr c)) "tcp6"
        then (_ <- obtainPassiveAddress6 c ;; ret tt)
        else ret tt) ;;
  obtainPassiveAddress4.

(** The first revision of [obtainPassiveAddress], where the EPSV branch
    returns. *)
Definition obtainPassiveAddress_rev1 (c : Client) : M (option TCPAddr * option error) :=
  if String.eqb (Network (RemoteAddr c)) "tcp6"
  then obtainPassiveAddress6 c
  else obtainPassiveAddress4.

(** The data connection; [None] is a nil connection. *)
Inductive DataConn := dataConn (addr : TCPAddr).

Definition DialContext (addr : TCPAddr) : M (option DataConn * option error) :=
  fun w => match dial_err w with
           | Some e => (Done (None, Some e), w)
           | None => (Done (Some (dataConn addr), None), log w (EvDial addr))
           end.

(** [conn.Close()] of the data transport. *)
Definition DataClose : M (option error) :=
  fun w => (Done (data_close_err w), log w EvDataClose).

(** [func (c *Client) openPassive]. [obtainPassiveAddress] returns an
    address or an error, never neither; the last branch stands for the
    use of a nil address, which no path reaches. *)
Definition openPassive (c : Client) : M (option DataConn * option error) :=
  '(addr, err) <- obtainPassiveAddress c ;;
  match addr, err with
  | _, Some e => ret (None, Some e)
  | Some a, None => DialContext a
  | None, None => panic
  end.

(* ================================================================== *)
(** ** transfer.go *)

Record transferConn := mkTransferConn { rwc : DataConn; tc_c : Client }.

(** The deferred closure of [transfer]:
    [func(conn io.Closer) { if err != nil { conn.Close() } }(conn)].
    Its argument is the value the variable [err] of the function body
    holds when the function returns. *)
Definition deferred (err : option error) : M unit :=
  match err with
  | Some _ => _ <- DataClose ;; ret tt
  | None => ret tt
  end.

(** [func (c *Client) transfer(ctx, command, dataType) (Reply,
    io.ReadWriteCloser, error)], the current revision. The results are
    unnamed; [reply, err := c.sendCommand(ctx, command)] declares [reply]
    and assigns the [err] of [conn, err := c.openPassive(ctx)], which is
    the variable the deferred closure reads. A [return] assigns the
    results, not that variable. The dial returns a connection or an
    error, so the branch without either is never reached. *)
Definition transfer (c : Client) (command dataType : string)
  : M (Reply * option transferConn * option error) :=
  '(reply, err) <- sendCommand ("TYPE " ++ dataType) ;;
  match err with
  | Some e => ret (Reply0, None, Some e)
  | None =>
      if negb (PositiveComplete reply)
      then ret (Reply0, None, Some (ReplyError reply))
      else
        '(conn, err) <- openPassive c ;;
        match conn, err with
        | _, Some e => ret (Reply0, None, Some e)
        | None, None => panic
        | Some conn, None =>
            '(reply, err) <- sendCommand command ;;
            match err with
            | Some e =>
                _ <- deferred err ;; ret (Reply0, None, Some e)
            | None =>
                if negb (Positive reply)
                then _ <- deferred err ;;
                     ret (Reply0, None, Some (ReplyError reply))
                else _ <- deferred err ;;
                     ret (reply, Some (mkTransferConn conn c), None)
            end
        end
  end.

(** The context revision before it: [transfer(ctx, command, dataType)
    (io.ReadWriteCloser, error)]. The transfer command is sent in
    [if reply, err := c.sendCommand(ctx, command); err != nil], whose
    [err] is local to the [if]; the variable read by the deferred closure
    keeps the nil it got from [openPassive]. *)
Definition transfer_rev2 (c : Client) (command dataType : string)
  : M (option transferConn * option error) :=
  '(reply, err) <- sendCommand ("TYPE " ++ dataType) ;;
  match err with
  | Some e => ret (None, Some e)
  | None =>
      if negb (PositiveComplete reply)
      then ret (None, Some (ReplyError reply))
      else
        '(conn, err) <- openPassive c ;;
        match conn, err with
        | _, Some e => ret (None, Some e)
        | None, None => panic
        | Some conn, None =>
            '(reply, err') <- sendCommand command ;;
            match err' with
            | Some e => _ <- deferred err ;; ret (None, Some e)
            | None =>
                if negb (Positive reply)
                then _ <- deferred err ;; ret (None, Some (ReplyError reply))
                else _ <- deferred err ;;
                     ret (Some (mkTransferConn conn c), None)
            end
        end
  end.

(** The first revision: [transfer(command, dataType string) (conn
    io.ReadWriteCloser, err error)]. The results are named, so every
    [return x, e] stores [e] in [err] before the deferred closure runs. *)
Definition transfer_rev1 (c : Client) (command dataType : string)
  : M (option transferConn * option error) :=
  '(reply, err) <- sendCommand ("TYPE " ++ dataType) ;;
  match err with
  | Some e => ret (None, Some e)
  | None =>
      if negb (PositiveComplete reply)
      then ret (None, Some (ReplyError reply))
      else
        '(conn, err) <- openPassive c ;;
        match conn, err with
        | _, Some e => ret (None, Some e)
        | None, None => panic
        | Some conn, None =>
            '(reply, err') <- sendCommand command ;;
            match err' with
            | Some e =>
                let err := Some e in
                _ <- deferred err ;; ret (None, err)
            | None =>
                if negb (Positive reply)
                then let err := Some (ReplyError reply) in
                     _ <- deferred err ;; ret (None, err)
                else let err := @None error in
                     _ <- deferred err ;;
                     ret (Some (mkTransferConn conn c), err)
            end
        end
  end.

(** [func (tc *transferConn) Close() error] *)
Definition transferConn_Close (tc : transferConn) : M (option error) :=
  err <- DataClose ;;
  match err with
  | Some e => ret (Some e)
  | None =>
      '(reply, err) <- readResponse ;;
      match err with
      | Some e => ret (Some e)
      | None =>
          if negb (PositiveComplete reply) then ret (Some (ReplyError reply))
          else ret None
      end
  end.

(* ================================================================== *)
(** ** The cancellable path of [sendCommand] and [readWelcome]

    With a context whose [Done()] channel is not nil, the blocking call
    runs on a goroutine and the caller waits in a [select] on the result
    channel and on [ctx.Done()]. A configuration holds what is left of
    the goroutine, the value it computed, the channel, the context and
    the caller; a schedule is the order in which the goroutine, the
    cancellation and the two cases of the [select] act. *)

Module Cancel.

Definition result : Type := Reply * option error.

(** Statements of a goroutine. *)
Inductive instr :=
| Run          (* the blocking call: sendCmd(command), or response() *)
| SendResult.  (* ch <- response{r, err} *)

(** [go c.sendCmd(command)]: a [go] statement drops what the function
    returns, and nothing else writes to the channel [result]. *)
Definition sendCommand_body : list instr := [Run].

(** [go func() { r, err := c.response(); resp <- response{r, err} }()] *)
Definition readWelcome_body : list instr := [Run; SendResult].

Record config := mkConfig {
  body : list instr;        (* rest of the goroutine *)
  value : option result;    (* what its blocking call returned *)
  chan : option result;     (* value waiting on the channel *)
  done : option CtxErr;     (* ctx.Done() is closed, with ctx.Err() *)
  caller : option result    (* None: the caller is blocked in select *)
}.

Definition init (b : list instr) : config := mkConfig b None None None None.

Inductive action :=
| Unit                (* the goroutine executes its next statement *)
| Fire (e : CtxErr)   (* the context is cancelled or its deadline passes *)
| Receive             (* select takes the case reading the channel *)
| ObserveDone.        (* select takes the case reading ctx.Done() *)

(** One action; an action that is not enabled leaves the configuration
    as it is. [io] is what the blocking call returns on this transport. *)
Definition step (io : result) (a : action) (c : config) : config :=
  match a with
  | Unit =>
      match body c with
      | Run :: b => mkConfig b (Some io) (chan c) (done c) (caller c)
      | SendResult :: b =>
          match value c, chan c with
          | Some v, None => mkConfig b (value c) (Some v) (done c) (caller c)
          | _, _ => c
          end
      | [] => c
      end
  | Fire e =>
      match done c with
      | None => mkConfig (body c) (value c) (chan c) (Some e) (caller c)
      | Some _ => c
      end
  | Receive =>
      match caller c, chan c with
      | None, Some v => mkConfig (body c) (value c) None (done c) (Some v)
      | _, _ => c
      end
  | ObserveDone =>
      match caller c, done c with
      | None, Some e =>
          mkConfig (body c) (value c) (chan c) (done c)
                   (Some (Reply0, Some (ContextError e)))
      | _, _ => c
      end
  end.

Definition run (io : result) (sched : list action) (c : config) : config :=
  fold_left (fun c a => step io a c) sched c.

(** No statement left in the goroutine writes to the channel. *)
Definition silent (b : list instr) : Prop := ~ In SendResult b.

(** What holds of every configuration of [sendCommand]: nothing is or
    will be on the channel, and a caller that returned holds the error
    of the context. *)
Definition dropped (c : config) : Prop :=
  silent (body c) /\ chan c = None /\
  (caller c = None \/
   exists e, caller c = Some (Reply0, Some (ContextError e)) /\ done c = Some e).

End Cancel.

(* ================================================================== *)
(** ** Vocabulary of the statements *)

(** The framing errors of the reply reader: short line, bad fourth byte,
    code that does not parse. *)
Definition framing_error (e : error) : Prop :=
  e = errShortLine \/ e = errExpectedSpace \/
  exists num kind, e = NumError "Atoi" num kind.

(** [sep] occurs in [s] at byte offset [i]. *)
Definition occurs_at (sep s : string) (i : nat) : Prop :=
  exists pre post, s = pre ++ sep ++ post /\ String.length pre = i.

Definition last_occurrence (sep s : string) (i : nat) : Prop :=
  occurs_at sep s i /\ forall j, occurs_at sep s j -> (j <= i)%nat.

(** What the EPSV parser has to return, in terms of the last occurrences
    of the two delimiters: [i] is the offset of the last start delimiter,
    [j] that of the last end delimiter, and the port text lies between
    the end of the former and the start of the latter. *)
Inductive EpsvSpec (msg : string) : Z * option error -> Prop :=
| Epsv_no_start :
    (forall i, ~ occurs_at epsvStart msg i) ->
    EpsvSpec msg (0, Some errEpsvNoPort)
| Epsv_no_end : forall i,
    last_occurrence epsvStart msg i ->
    (forall j, ~ occurs_at epsvEnd msg j) ->
    EpsvSpec msg (0, Some errEpsvNoPort)
| Epsv_misordered : forall i j,
    last_occurrence epsvStart msg i ->
    last_occurrence epsvEnd msg j ->
    (j <= i + String.length epsvStart)%nat ->
    EpsvSpec msg (0, Some errEpsvNoPort)
| Epsv_port : forall i j,
    last_occurrence epsvStart msg i ->
    last_occurrence epsvEnd msg j ->
    (i + String.length epsvStart < j)%nat ->
    EpsvSpec msg (Atoi (slice (i + String.length epsvStart) j msg)).

Fixpoint all_digits (s : string) : bool :=
  match s with
  | EmptyString => true
  | String c r => (is_digit c && all_digits r)%bool
  end.

(** A decimal number as the PASV pattern reads it: one digit or more. *)
Definition number (d : string) : Prop := d <> EmptyString /\ all_digits d = true.

(** The value of a decimal number. *)
Definition decimal (d : string) : Z :=
  match parse_digits d 0 with
  | Some v => v
  | None => 0
  end.

Definition starts_with_digit (s : string) : bool :=
  match s with
  | EmptyString => false
  | String c _ => is_digit c
  end.

(** Six numbers separated by commas start at byte offset [k] of [msg]. *)
Definition sextet_at (msg : string) (k : nat) : Prop :=
  exists pre ds post,
    msg = pre ++ Join ds "," ++ post /\ String.length pre = k /\
    List.length ds = 6%nat /\ Forall number ds.

(** The byte [parsePasvReply] stores for a number of the sextet: the low
    eight bits of its value while the value fits [int], and those of the
    largest [int] beyond. *)
Definition component_byte (d : string) : Z :=
  if decimal d <=? maxInt then decimal d mod 2 ^ 8 else 255.

(** The result of [Close] from the outcome of the reply read. *)
Definition close_result (r : Reply * option error) : option error :=
  match r with
  | (_, Some e) => Some e
  | (reply, None) =>
      if PositiveComplete reply then None else Some (ReplyError reply)
  end.

(** The check behind [Itoa_three_digits]: [Itoa] writes three bytes that
    [Atoi] reads back. *)
Definition code3_ok (n : nat) : bool :=
  let c := Z.of_nat n in
  ((String.length (Itoa c) =? 3)%nat &&
   match Atoi (Itoa c) with
   | (v, None) => v =? c
   | (_, Some _) => false
   end)%bool.

(** No match of the PASV pattern starts at any of the first [n] byte
    offsets of [msg]. *)
Definition no_match_before (msg : string) (n : nat) : bool :=
  forallb (fun k => match match_groups 5 (drop k msg) with
                    | None => true
                    | Some _ => false
                    end) (seq 0 n).

(** The clients and worlds of the scenarios. *)
Definition peer4 : Client := mkClient (AddrTCP (mkTCPAddr [192; 0; 2; 1] 21)).

(** An IPv6 TCP peer, 2001:db8::1 port 21. *)
Definition peer6 : Client :=
  mkClient (AddrTCP (mkTCPAddr [32; 1; 13; 184; 0; 0; 0; 0;
                                0; 0; 0; 0; 0; 0; 0; 1] 21)).

(** A connection whose remote address is not a [net.TCPAddr] and reports
    the network name "tcp6". *)
Definition peer_tcp6 : Client := mkClient (AddrOther "tcp6").

Definition pasv_line : string := "227 Entering Passive Mode (192,0,2,47,4,7)".
Definition pasv_addr : TCPAddr := mkTCPAddr [192; 0; 2; 47] 1031.

(** Six comma-separated decimal byte values [ds] stand at offset [k] of
    [msg], as a substring: each is a number of value at most 255. *)
Definition byte_sextet_at (msg : string) (k : nat) (ds : list string) : Prop :=
  exists pre post,
    msg = pre ++ Join ds "," ++ post /\ String.length pre = k /\
    List.length ds = 6%nat /\ Forall number ds /\
    Forall (fun d => decimal d < 256) ds.

(** The check behind [no_byte_sextet]: what the pattern reads at offset
    [k], if anything, has a number above 255 among its first five. *)
Definition no_byte_sextet_check (msg : string) (k : nat) : bool :=
  match match_groups 5 (drop k msg) with
  | None => true
  | Some (ds, _) => existsb (fun d => 256 <=? decimal d) (firstn 5 ds)
  end.

(* ================================================================== *)
(** ** The rest of the client: Do, Login, Text, Binary *)

(** Modelled from the spec: the constant is declared with the other reply
    codes, outside the given sources; 331 is the reply to USER after
    which the login scenario sends PASS. *)
Definition CodeNeedPassword : Z := 331.


(** [func (c *Client) Login(ctx, username, password) error] *)
Definition Login (username password : string) : M (option error) :=
  '(reply, err) <- sendCommand ("USER " ++ username) ;;
  match err with
  | Some e => ret (Some e)
  | None =>
      '(reply, err) <-
        (if Code reply =? CodeNeedPassword
         then sendCommand ("PASS " ++ password)
         else ret (reply, None)) ;;
      match err with
      | Some e => ret (Some e)
      | None =>
          if negb (PositiveComplete reply) then ret (Some (ReplyError reply))
          else ret None
      end
  end.



(* ================================================================== *)
(** ** Dial, NewClient, Quit and Close

    These act on the control connection itself. A session is the world
    together with what the dialer finds and a log of the dials and closes
    of the control connection. *)

Module Facade.

Inductive ctl_event :=
| CtlDial (network addr : string)   (* d.DialContext(ctx, network, addr) *)
| CtlClose.                         (* c.proto.Close() *)

Record Session := mkSession {
  world : World;
  ctl_dial_err : option error;    (* failure of the dial, if any *)
  ctl_remote : Addr;              (* RemoteAddr() of the dialled connection *)
  ctl_close_err : option error;   (* what closing the connection returns *)
  ctl_log : list ctl_event        (* dials and closes so far, oldest first *)
}.

Definition S (A : Type) : Type := Session -> outcome A * Session.

Definition retS {A} (a : A) : S A := fun s => (Done a, s).

Definition bindS {A B} (m : S A) (k : A -> S B) : S B :=
  fun s => match m s with
           | (Done a, s') => k a s'
           | (Panic, s') => (Panic, s')
           end.

(** A computation on the world, run inside a session. *)
Definition lift {A} (m : M A) : S A :=
  fun s => let (r, w') := m (world s) in
           (r, mkSession w' (ctl_dial_err s) (ctl_remote s)
                         (ctl_close_err s) (ctl_log s)).

Definition logS (s : Session) (e : ctl_event) : Session :=
  mkSession (world s) (ctl_dial_err s) (ctl_remote s) (ctl_close_err s)
            (ctl_log s ++ [e])%list.

(** The [Client] struct with its [Welcome] field. *)
Record Connected := mkConnected { client : Client; Welcome : Reply }.

Definition errOnlyTCP : error :=
  errorString "ftp: only TCP connections are supported".

(** [func NewClient(ctx, conn)], with [readWelcome] on a context whose
    [Done()] is nil, where it is [response]. *)
Definition NewClient (remote : Addr) : S (option Connected * option error) :=
  bindS (lift response) (fun r =>
    match r with
    | (_, Some e) => retS (None, Some e)
    | (welcome, None) => retS (Some (mkConnected (mkClient remote) welcome), None)
    end).

(** [func Dial(ctx, network, addr)] *)
Definition Dial (network addr : string) : S (option Connected * option error) :=
  if negb (HasPrefix network "tcp") then retS (None, Some errOnlyTCP)
  else fun s =>
    let s1 := logS s (CtlDial network addr) in
    match ctl_dial_err s with
    | Some e => (Done (None, Some e), s1)
    | None => NewClient (ctl_remote s) s1
    end.

(** [func (c *Client) Close() error] *)
Definition Close : S (option error) :=
  fun s => (Done (ctl_close_err s), logS s CtlClose).

(** [func (c *Client) Quit(ctx) error]; the first test compares the error
    with [context.Canceled] and [context.DeadlineExceeded]. *)
Definition Quit : S (option error) :=
  bindS (lift (sendCommand "QUIT")) (fun r =>
    match snd r with
    | Some (ContextError _) => Close
    | Some e => retS (Some e)
    | None => Close
    end).

End Facade.

(* ================================================================== *)
(** ** Vocabulary of the further statements *)

(** The byte [c] occurs in [s]. *)
Fixpoint contains_char (c : ascii) (s : string) : bool :=
  match s with
  | EmptyString => false
  | String x r => (Ascii.eqb x c || contains_char c r)%bool
  end.

(** The last byte of [s] is a digit. *)
Fixpoint ends_with_digit (s : string) : bool :=
  match s with
  | EmptyString => false
  | String c EmptyString => is_digit c
  | String _ r => ends_with_digit r
  end.

(** The world after [n] lines were consumed and [evs] was appended to the
    trace. *)
Definition advance (w : World) (rest : list string) (evs : list event) : World :=
  mkWorld rest (ctl_in_err w) (ctl_out_err w) (dial_err w) (data_close_err w)
          (trace w ++ evs)%list.

(** A single-line reply on the wire. *)
Definition reply_line (code : Z) (text : string) : string :=
  Itoa code ++ " " ++ text.

(** What holds of every configuration of the cancellable [readWelcome]:
    the goroutine, the channel and the caller hold nothing but the result
    [io] of the blocking read, or the caller holds the error of the
    cancelled context. *)
Definition welcomed (io : Cancel.result) (c : Cancel.config) : Prop :=
  (Cancel.value c = None \/ Cancel.value c = Some io) /\
  (Cancel.chan c = None \/ Cancel.chan c = Some io) /\
  (Cancel.caller c = None \/ Cancel.caller c = Some io \/
   exists e, Cancel.caller c = Some (Reply0, Some (ContextError e)) /\
             Cancel.done c = Some e).

(* ================================================================== *)
(** * Properties *)

(** ** Strings *)

Lemma prefix_append : forall p r, String.prefix p (p ++ r) = true.
Proof.
  induction p as [|c p IH]; intros r; simpl.
  - destruct r; reflexivity.
  - destruct (ascii_dec c c) as [_|n]; [apply IH | contradiction].
Qed.

Lemma prefix_split : forall p s,
  String.prefix p s = true -> exists r, s = p ++ r.
Proof.
  induction p as [|c p IH]; intros s H.
  - exists s. reflexivity.
  - destruct s as [|d s]; simpl in H; [discriminate|].
    destruct (ascii_dec c d) as [->|]; [|discriminate].
    destruct (IH _ H) as [r ->]. exists r. reflexivity.
Qed.

Lemma drop_append : forall p r, drop (String.length p) (p ++ r) = r.
Proof. induction p as [|c p IH]; intros r; simpl; auto. Qed.

Lemma take_append : forall p r, take (String.length p) (p ++ r) = p.
Proof.
  induction p as [|c p IH]; intros r; simpl.
  - reflexivity.
  - now rewrite IH.
Qed.

Lemma length_append : forall a b,
  String.length (a ++ b) = (String.length a + String.length b)%nat.
Proof. induction a as [|c a IH]; intros b; simpl; auto. Qed.

Lemma append_assoc : forall a b c : string, (a ++ b) ++ c = a ++ (b ++ c).
Proof. induction a as [|x a IH]; intros b c; simpl; [|rewrite IH]; reflexivity. Qed.

Lemma get_append_length : forall p c r,
  String.get (String.length p) (p ++ String c r) = Some c.
Proof. induction p as [|x p IH]; intros c r; simpl; auto. Qed.

(** ** The reply reader *)

Lemma fourth_char_match : forall (A : Type) (o : option ascii) (x y z : A),
  match o with
  | Some "-"%char => x
  | Some " "%char => y
  | _ => z
  end
  = match o with
    | Some c => if Ascii.eqb c "-" then x
                else if Ascii.eqb c " " then y else z
    | None => z
    end.
Proof.
  intros A [c|] x y z; [|reflexivity].
  destruct c as [[] [] [] [] [] [] [] []]; reflexivity.
Qed.

Lemma Atoi_error : forall s v e,
  Atoi s = (v, Some e) -> exists k, e = NumError "Atoi" s k.
Proof.
  intros s v e H. unfold Atoi in H.
  destruct s as [|c r]; [inversion H; eexists; reflexivity|].
  cbv zeta in H.
  destruct (if (Ascii.eqb c "-" || Ascii.eqb c "+")%bool then r else String c r);
    [inversion H; eexists; reflexivity|].
  destruct (parse_digits _ 0); [|inversion H; eexists; reflexivity].
  destruct (Ascii.eqb c "-").
  - destruct (- minInt <? z); inversion H. eexists; reflexivity.
  - destruct (maxInt <? z); inversion H. eexists; reflexivity.
Qed.

(** One turn of the loop, as the source has it: [ReadLine], then the
    test of the prefix. *)
Lemma response_loop_step : forall p w lines,
  response_loop p (ctl_in w) (ctl_in_err w) lines =
  match ReadLine w with
  | (Done (_, Some e), _) => (lines, Some e, [])
  | (Done (line, None), w') =>
      if HasPrefix line p
      then ((lines ++ [drop (String.length p) line])%list, None, ctl_in w')
      else response_loop p (ctl_in w') (ctl_in_err w') (lines ++ [line])%list
  | (Panic, _) => (lines, None, [])
  end.
Proof.
  intros p w lines. unfold ReadLine.
  destruct (ctl_in w) as [|line rest]; reflexivity.
Qed.

Lemma response_loop_no_terminator : forall p fail conts acc,
  Forall (fun l => HasPrefix l p = false) conts ->
  response_loop p conts fail acc = ((acc ++ conts)%list, Some fail, []).
Proof.
  intros p fail conts. induction conts as [|l conts IH]; intros acc H; simpl.
  - now rewrite app_nil_r.
  - inversion H as [|? ? Hl Hc]; subst. rewrite Hl, IH by assumption.
    now rewrite <- app_assoc.
Qed.

Lemma response_loop_terminator : forall p fail conts last rest acc,
  Forall (fun l => HasPrefix l p = false) conts ->
  response_loop p (conts ++ (p ++ last)%string :: rest)%list fail acc
  = ((acc ++ conts ++ [last])%list, None, rest).
Proof.
  intros p fail conts last rest. induction conts as [|l conts IH]; intros acc H; simpl.
  - unfold HasPrefix. now rewrite prefix_append, drop_append.
  - inversion H as [|? ? Hl Hc]; subst. rewrite Hl, IH by assumption.
    now rewrite <- app_assoc.
Qed.

(** What [response] does once the first line is read, has four bytes or
    more and a code that parses. *)
Lemma response_first_line : forall w line rest code,
  ctl_in w = line :: rest ->
  (String.length line <? 4)%nat = false ->
  Atoi (take 3 line) = (code, None) ->
  response w =
  match String.get 3 line with
  | Some c =>
      if Ascii.eqb c "-" then
        let '(lines, err, rest') :=
          response_loop (Itoa code ++ " ") rest (ctl_in_err w) [drop 4 line] in
        (Done (mkReply code (Join lines LF), err), set_in (log w EvReply) rest')
      else if Ascii.eqb c " " then
        (Done (mkReply code (drop 4 line), None), set_in (log w EvReply) rest)
      else (Done (Reply0, Some errExpectedSpace), set_in (log w EvReply) rest)
  | None => (Done (Reply0, Some errExpectedSpace), set_in (log w EvReply) rest)
  end.
Proof.
  intros w line rest code Hin Hlen Hcode.
  unfold response, bind, emit, ReadLine. cbn [ctl_in log].
  rewrite Hin, Hlen, Hcode, fourth_char_match.
  destruct (String.get 3 line) as [c|]; [|reflexivity].
  destruct (Ascii.eqb c "-"); [|destruct (Ascii.eqb c " "); reflexivity].
  cbn [ctl_in set_in ctl_in_err].
  destruct (response_loop _ _ _ _) as [[lines err] rest']. reflexivity.
Qed.

(** C9. A first line shorter than four bytes, or whose fourth byte is
    neither a space nor a hyphen, makes the reply reader return a framing
    error together with the zero Reply: the short-line error in the first
    case; in the second the error of parsing the code when the first
    three bytes are no number, and the expected-space error otherwise. *)
Theorem response_framing_error_C9 : forall w line rest,
  ctl_in w = line :: rest ->
  ((String.length line < 4)%nat \/
   exists c, String.get 3 line = Some c /\ c <> " "%char /\ c <> "-"%char) ->
  exists e,
    fst (response w) = Done (Reply0, Some e) /\ framing_error e /\
    ((String.length line < 4)%nat -> e = errShortLine) /\
    ((4 <= String.length line)%nat -> snd (Atoi (take 3 line)) = None ->
     e = errExpectedSpace).
Proof.
  intros w line rest Hin Hcase.
  destruct (String.length line <? 4)%nat eqn:Hlen.
  - exists errShortLine.
    unfold response, bind, emit, ReadLine. cbn [ctl_in log].
    rewrite Hin, Hlen. apply Nat.ltb_lt in Hlen.
    repeat split; unfold framing_error; auto. intros; lia.
  - apply Nat.ltb_ge in Hlen.
    destruct Hcase as [Hs | (c & Hget & Hsp & Hhy)]; [lia|].
    destruct (Atoi (take 3 line)) as [code [e|]] eqn:Hcode.
    + exists e. destruct (Atoi_error _ _ _ Hcode) as [k ->].
      unfold response, bind, emit, ReadLine. cbn [ctl_in log].
      rewrite Hin. apply Nat.ltb_ge in Hlen. rewrite Hlen, Hcode.
      apply Nat.ltb_ge in Hlen.
      repeat split; unfold framing_error; eauto; [lia | discriminate].
    + exists errExpectedSpace.
      assert (Hl : (String.length line <? 4)%nat = false) by now apply Nat.ltb_ge.
      rewrite (response_first_line w line rest code Hin Hl Hcode), Hget.
      destruct (Ascii.eqb_spec c "-"); [contradiction|].
      destruct (Ascii.eqb_spec c " "); [contradiction|].
      repeat split; unfold framing_error; auto. lia.
Qed.

Lemma response_framing_error_C9_witness :
  exists e,
    fst (response (world0 ["50"])) = Done (Reply0, Some e) /\ framing_error e /\
    ((String.length "50" < 4)%nat -> e = errShortLine) /\
    ((4 <= String.length "50")%nat -> snd (Atoi (take 3 "50")) = None ->
     e = errExpectedSpace).
Proof.
  apply (response_framing_error_C9 (world0 ["50"]) "50" []).
  - reflexivity.
  - left. simpl. lia.
Defined.

(** C8. When the transport fails inside a multi-line reply, before any
    line starting with the code and a space was read, the reply reader
    returns the Reply whose message is the lines read so far joined by
    line feeds, together with the error of the transport. *)
Theorem response_partial_reply_C8 : forall w first conts code,
  ctl_in w = first :: conts ->
  (4 <= String.length first)%nat ->
  Atoi (take 3 first) = (code, None) ->
  String.get 3 first = Some "-"%char ->
  Forall (fun l => HasPrefix l (Itoa code ++ " ") = false) conts ->
  fst (response w)
  = Done (mkReply code (Join (drop 4 first :: conts) LF), Some (ctl_in_err w)).
Proof.
  intros w first conts code Hin Hlen Hcode Hget Hconts.
  assert (Hl : (String.length first <? 4)%nat = false) by now apply Nat.ltb_ge.
  rewrite (response_first_line w first conts code Hin Hl Hcode), Hget.
  cbn [Ascii.eqb Bool.eqb].
  rewrite (response_loop_no_terminator _ _ _ _ Hconts). reflexivity.
Qed.

Lemma response_partial_reply_C8_witness :
  fst (response (world0 ["123-First line"; "Second line"]))
  = Done (mkReply 123 (Join ["First line"; "Second line"] LF),
          Some (TransportError "EOF")).
Proof.
  apply (response_partial_reply_C8 (world0 ["123-First line"; "Second line"])
           "123-First line" ["Second line"] 123).
  - reflexivity.
  - simpl. lia.
  - reflexivity.
  - reflexivity.
  - repeat constructor.
Defined.

Lemma code3_all : forallb code3_ok (seq 100 900) = true.
Proof. vm_compute. reflexivity. Qed.

Lemma Itoa_three_digits : forall c,
  100 <= c <= 999 ->
  String.length (Itoa c) = 3%nat /\ Atoi (Itoa c) = (c, None).
Proof.
  intros c Hc.
  assert (Hin : In (Z.to_nat c) (seq 100 900)) by (apply in_seq; lia).
  pose proof (proj1 (forallb_forall _ _) code3_all _ Hin) as H.
  unfold code3_ok in H. rewrite Z2Nat.id in H by lia.
  apply andb_prop in H. destruct H as [Hl Ha].
  apply Nat.eqb_eq in Hl. split; [exact Hl|].
  destruct (Atoi (Itoa c)) as [v [e|]]; [discriminate|].
  apply Z.eqb_eq in Ha. now subst.
Qed.

(** C5. A multi-line reply whose first line is a three-digit code, a
    hyphen and text, followed by continuation lines and closed by the
    first line that starts with the same code and a space, is read as
    that code with the message made of the text of the first line, the
    continuation lines in order and the remainder of the closing line,
    joined by line feeds; the lines after the closing line stay unread. *)
Theorem response_multiline_C5 : forall w code text conts last rest,
  100 <= code <= 999 ->
  ctl_in w = ((Itoa code ++ "-" ++ text)%string
              :: conts ++ (Itoa code ++ " " ++ last)%string :: rest)%list ->
  Forall (fun l => HasPrefix l (Itoa code ++ " ") = false) conts ->
  response w
  = (Done (mkReply code (Join (text :: conts ++ [last])%list LF), None),
     set_in (log w EvReply) rest).
Proof.
  intros w code text conts last rest Hc Hin Hconts.
  destruct (Itoa_three_digits code Hc) as [Hlen Hatoi].
  set (first := Itoa code ++ "-" ++ text) in *.
  assert (Htake : take 3 first = Itoa code)
    by (unfold first; rewrite <- Hlen; apply take_append).
  assert (Hget : String.get 3 first = Some "-"%char)
    by (unfold first; rewrite <- Hlen; apply get_append_length).
  assert (Hdrop : drop 4 first = text).
  { unfold first. rewrite <- append_assoc.
    replace 4%nat with (String.length (Itoa code ++ "-")).
    - apply drop_append.
    - rewrite length_append, Hlen. reflexivity. }
  assert (Hl : (String.length first <? 4)%nat = false).
  { apply Nat.ltb_ge. unfold first. rewrite length_append, Hlen. simpl. lia. }
  rewrite (response_first_line w first _ code Hin Hl) by (now rewrite Htake).
  rewrite Hget. cbn [Ascii.eqb Bool.eqb].
  rewrite <- append_assoc, Hdrop.
  rewrite (response_loop_terminator _ _ _ _ _ _ Hconts). reflexivity.
Qed.

Lemma response_multiline_C5_witness :
  response (world0 ["123-First line"; "Second line";
                    "  234 A line beginning with numbers";
                    "123 The last line"])
  = (Done (mkReply 123 (Join ["First line"; "Second line";
                              "  234 A line beginning with numbers";
                              "The last line"] LF), None),
     set_in (log (world0 ["123-First line"; "Second line";
                          "  234 A line beginning with numbers";
                          "123 The last line"]) EvReply) []).
Proof.
  apply (response_multiline_C5 _ 123 "First line"
           ["Second line"; "  234 A line beginning with numbers"]
           "The last line" []).
  - lia.
  - reflexivity.
  - repeat constructor.
Defined.

(** The code is rendered again from its value to recognise the closing
    line, so a prefix with a leading zero never closes its own reply. *)
Example response_leading_zero :
  fst (response (world0 ["012-a"; "012 b"]))
  = Done (mkReply 12 (Join ["a"; "012 b"] LF), Some (TransportError "EOF")).
Proof. reflexivity. Qed.

Example response_single_line :
  fst (response (world0 ["201 Hello, World"]))
  = Done (mkReply 201 "Hello, World", None).
Proof. reflexivity. Qed.

(** ** EPSV parsing *)

Lemma take_drop : forall k s, take k s ++ drop k s = s.
Proof.
  induction k as [|k IH]; intros s; [reflexivity|].
  destruct s as [|c s]; simpl; [reflexivity|]. now rewrite IH.
Qed.

Lemma length_take : forall k s,
  (k <= String.length s)%nat -> String.length (take k s) = k.
Proof.
  induction k as [|k IH]; intros s H; [reflexivity|].
  destruct s as [|c s]; simpl in *; [lia|]. rewrite IH; lia.
Qed.

Lemma occurs_at_prefix : forall sep s k,
  occurs_at sep s k <->
  (k <= String.length s)%nat /\ String.prefix sep (drop k s) = true.
Proof.
  intros sep s k. split.
  - intros (pre & post & -> & <-). split.
    + rewrite length_append. lia.
    + rewrite drop_append. apply prefix_append.
  - intros [Hk Hp]. destruct (prefix_split _ _ Hp) as [r Hr].
    exists (take k s), r. split.
    + rewrite <- Hr. symmetry. apply take_drop.
    + now apply length_take.
Qed.

Lemma last_index_from_spec : forall sep s i,
  match last_index_from sep s i with
  | Some j =>
      exists k, j = (i + k)%nat /\ (k <= String.length s)%nat /\
                String.prefix sep (drop k s) = true /\
                forall k', (k < k' <= String.length s)%nat ->
                           String.prefix sep (drop k' s) = false
  | None =>
      forall k, (k <= String.length s)%nat ->
                String.prefix sep (drop k s) = false
  end.
Proof.
  intros sep s. induction s as [|c s IH]; intros i.
  - cbn [last_index_from]. destruct (String.prefix sep "") eqn:Hp.
    + exists 0%nat. repeat split; auto; simpl; intros; lia.
    + intros k Hk. simpl in Hk. assert (k = 0%nat) by lia. now subst.
  - cbn [last_index_from]. specialize (IH (S i)).
    destruct (last_index_from sep s (S i)) as [j|].
    + destruct IH as (k & -> & Hk & Hp & Hlast).
      exists (S k). repeat split; simpl; auto; try lia.
      intros k' Hk'. destruct k' as [|k']; [lia|]. apply Hlast. lia.
    + destruct (String.prefix sep (String c s)) eqn:Hp.
      * exists 0%nat. repeat split; auto; simpl; try lia.
        intros k' Hk'. destruct k' as [|k']; [lia|]. apply IH. lia.
      * intros k Hk. destruct k as [|k]; [exact Hp|]. apply IH. simpl in Hk. lia.
Qed.

Lemma LastIndex_cases : forall s sep,
  (LastIndex s sep = -1 /\ forall i, ~ occurs_at sep s i) \/
  (exists i, LastIndex s sep = Z.of_nat i /\ last_occurrence sep s i).
Proof.
  intros s sep. unfold LastIndex.
  pose proof (last_index_from_spec sep s 0) as H.
  destruct (last_index_from sep s 0) as [j|].
  - right. destruct H as (k & -> & Hk & Hp & Hlast). exists k. split; [reflexivity|].
    split; [apply occurs_at_prefix; auto|].
    intros j Hj. apply occurs_at_prefix in Hj. destruct Hj as [Hj Hpj].
    destruct (Nat.le_gt_cases j k) as [|Hgt]; [assumption|].
    rewrite Hlast in Hpj by lia. discriminate.
  - left. split; [reflexivity|]. intros i Hi.
    apply occurs_at_prefix in Hi. destruct Hi as [Hi Hp].
    rewrite H in Hp by assumption. discriminate.
Qed.

Lemma parseEpsvReply_meets_spec : forall msg, EpsvSpec msg (parseEpsvReply msg).
Proof.
  intros msg. unfold parseEpsvReply.
  destruct (LastIndex_cases msg epsvStart) as [[-> Hs] | (i & -> & Hi)].
  - now apply Epsv_no_start.
  - replace (Z.of_nat i =? -1) with false by (symmetry; apply Z.eqb_neq; lia).
    cbv zeta.
    destruct (LastIndex_cases msg epsvEnd) as [[-> He] | (j & -> & Hj)].
    + now apply Epsv_no_end with i.
    + replace (Z.of_nat j =? -1) with false by (symmetry; apply Z.eqb_neq; lia).
      rewrite orb_false_l, <- Nat2Z.inj_add.
      destruct (Z.leb_spec (Z.of_nat j) (Z.of_nat (i + String.length epsvStart))) as [Hle|Hlt].
      * apply Epsv_misordered with i j; auto. lia.
      * rewrite !Nat2Z.id. apply Epsv_port; auto. lia.
Qed.

Lemma last_occurrence_unique : forall sep s i j,
  last_occurrence sep s i -> last_occurrence sep s j -> i = j.
Proof.
  intros sep s i j [Hi Hli] [Hj Hlj].
  apply Nat.le_antisymm; [apply Hlj | apply Hli]; assumption.
Qed.

(** The specification determines the result. *)
Lemma EpsvSpec_functional : forall msg r1 r2,
  EpsvSpec msg r1 -> EpsvSpec msg r2 -> r1 = r2.
Proof.
  intros msg r1 r2 H1 H2.
  destruct H1 as [Hs | i Hi He | i j Hi Hj Hle | i j Hi Hj Hlt];
  destruct H2 as [Hs' | i' Hi' He' | i' j' Hi' Hj' Hle' | i' j' Hi' Hj' Hlt'];
    try reflexivity;
    try (exfalso; eapply Hs; apply Hi'; fail);
    try (exfalso; eapply Hs'; apply Hi; fail);
    try (exfalso; eapply He; apply Hj'; fail);
    try (exfalso; eapply He'; apply Hj; fail);
    pose proof (last_occurrence_unique _ _ _ _ Hi Hi');
    pose proof (last_occurrence_unique _ _ _ _ Hj Hj'); subst;
    try lia; reflexivity.
Qed.

(** C6. [parseEpsvReply] meets [EpsvSpec] on every message: it takes the
    last occurrence of the start delimiter and the last occurrence of the
    end delimiter, answers the no-port error when one of them is missing
    or the end delimiter does not lie after the end of the start
    delimiter, and otherwise converts the text between them with [Atoi].
    Every result that meets the specification is the one of the code.
    The body of the test yields port 1031, and with two start delimiters
    the port after the last one is taken. *)
Theorem parseEpsvReply_last_delimiters_C6 :
  (forall msg r, EpsvSpec msg r <-> r = parseEpsvReply msg) /\
  parseEpsvReply "229 Entering Extended Passive Mode. (|||1031|)" = (1031, None) /\
  parseEpsvReply "229 Extended (|||21|) Passive Mode (|||1031|)" = (1031, None) /\
  parseEpsvReply "229 Extended Passive Mode |) (|||1031" = (0, Some errEpsvNoPort) /\
  parseEpsvReply "229 Extended Passive Mode 1031" = (0, Some errEpsvNoPort).
Proof.
  split; [|repeat split; reflexivity].
  intros msg r. split.
  - intros H. apply (EpsvSpec_functional msg); [exact H | apply parseEpsvReply_meets_spec].
  - intros ->. apply parseEpsvReply_meets_spec.
Qed.

(** ** PASV parsing *)

Lemma span_digits_sound : forall s d r,
  span_digits s = (d, r) ->
  s = d ++ r /\ all_digits d = true /\ starts_with_digit r = false.
Proof.
  induction s as [|c s IH]; intros d r H; simpl in H.
  - inversion H. auto.
  - destruct (is_digit c) eqn:Hc.
    + destruct (span_digits s) as [d' r'] eqn:Hs. inversion H; subst.
      destruct (IH _ _ eq_refl) as (-> & Hd & Hr).
      simpl. rewrite Hc, Hd. auto.
    + inversion H; subst. simpl. rewrite Hc. auto.
Qed.

Lemma span_digits_number : forall d r,
  all_digits d = true -> starts_with_digit r = false ->
  span_digits (d ++ r) = (d, r).
Proof.
  induction d as [|c d IH]; intros r Hd Hr;
    cbn [append span_digits all_digits] in *.
  - destruct r as [|c r]; [reflexivity|].
    cbn [span_digits starts_with_digit] in *. now rewrite Hr.
  - apply andb_prop in Hd. destruct Hd as [Hc Hd].
    now rewrite Hc, IH.
Qed.

Lemma Join_cons2 : forall sep x y l,
  Join (x :: y :: l) sep = x ++ sep ++ Join (y :: l) sep.
Proof. reflexivity. Qed.

Lemma match_groups_sound : forall k s gs tl,
  match_groups k s = Some (gs, tl) ->
  s = Join gs "," ++ tl /\ List.length gs = S k /\ Forall number gs /\
  starts_with_digit tl = false.
Proof.
  induction k as [|k IH]; intros s gs tl H; cbn [match_groups] in H;
    destruct (span_digits s) as [d rest] eqn:Hs;
    destruct (span_digits_sound _ _ _ Hs) as (-> & Hd & Hr);
    destruct d as [|c d]; try discriminate.
  - inversion H; subst. repeat split; auto.
    constructor; [split; [discriminate | exact Hd] | constructor].
  - destruct rest as [|c' r]; [discriminate|].
    destruct (Ascii.eqb_spec c' ","%char) as [->|Hne].
    + destruct (match_groups k r) as [[ds tl']|] eqn:Hm; [|discriminate].
      inversion H; subst.
      destruct (IH _ _ _ Hm) as (-> & Hlen & Hnum & Htl).
      destruct ds as [|d2 ds]; [discriminate|].
      repeat split; auto.
      * rewrite Join_cons2, !append_assoc. reflexivity.
      * simpl in *. lia.
      * constructor; [split; [discriminate | exact Hd] | exact Hnum].
    + exfalso. clear - H Hne.
      destruct c' as [[] [] [] [] [] [] [] []]; try discriminate.
      now apply Hne.
Qed.

Lemma match_groups_complete : forall k gs tl,
  List.length gs = S k -> Forall number gs -> starts_with_digit tl = false ->
  match_groups k (Join gs "," ++ tl) = Some (gs, tl).
Proof.
  induction k as [|k IH]; intros gs tl Hlen Hnum Htl;
    destruct gs as [|d gs]; try discriminate;
    inversion Hnum as [|? ? [Hne Hd] Hnum']; subst.
  - destruct gs; [|discriminate]. cbn [Join concat match_groups].
    rewrite (span_digits_number _ _ Hd Htl).
    destruct d; [contradiction|reflexivity].
  - destruct gs as [|d2 gs]; [discriminate|].
    rewrite Join_cons2, !append_assoc. cbn [match_groups].
    rewrite (span_digits_number d) by (auto; reflexivity).
    destruct d as [|c d]; [contradiction|].
    cbn [append]. rewrite IH; auto.
Qed.

Lemma Join_snoc_append : forall sep l x e,
  Join (l ++ [x]) sep ++ e = Join (l ++ [x ++ e]) sep.
Proof.
  intros sep l x e. induction l as [|a l IH]; [reflexivity|].
  cbn [app]. destruct l as [|b l].
  - cbn [app]. rewrite !Join_cons2, !append_assoc. reflexivity.
  - cbn [app] in *. rewrite !Join_cons2, !append_assoc, IH. reflexivity.
Qed.

Lemma all_digits_append : forall a b,
  all_digits a = true -> all_digits b = true -> all_digits (a ++ b) = true.
Proof.
  induction a as [|c a IH]; intros b Ha Hb; simpl in *; [exact Hb|].
  apply andb_prop in Ha. destruct Ha as [Hc Ha]. now rewrite Hc, IH.
Qed.

Lemma number_append : forall d e,
  number d -> all_digits e = true -> number (d ++ e).
Proof.
  intros d e [Hne Hd] He. split.
  - destruct d; [contradiction | discriminate].
  - now apply all_digits_append.
Qed.

(** Six numbers at the start of a string are read by the pattern
    anchored there; the last one may extend over digits that follow. *)
Lemma sextet_match_groups : forall l x post,
  List.length l = 5%nat -> Forall number (l ++ [x]) ->
  exists e post',
    match_groups 5 (Join (l ++ [x]) "," ++ post)
    = Some ((l ++ [(x ++ e)%string])%list, post').
Proof.
  intros l x post Hlen Hnum.
  destruct (span_digits post) as [e post'] eqn:Hs.
  destruct (span_digits_sound _ _ _ Hs) as (-> & He & Hp).
  exists e, post'.
  rewrite <- append_assoc, Join_snoc_append.
  apply match_groups_complete; [| |exact Hp].
  - rewrite length_app. simpl. lia.
  - apply Forall_app in Hnum. destruct Hnum as [Hl Hx].
    apply Forall_app. split; [exact Hl|].
    inversion Hx; subst. constructor; [|constructor].
    now apply number_append.
Qed.

Lemma sextet_at_match : forall msg k,
  sextet_at msg k ->
  (k <= String.length msg)%nat /\ match_groups 5 (drop k msg) <> None.
Proof.
  intros msg k (pre & ds & post & -> & <- & Hlen & Hnum). split.
  - rewrite length_append. lia.
  - rewrite drop_append.
    destruct (exists_last (l := ds)) as (l & x & ->);
      [intros ->; discriminate|].
    rewrite length_app in Hlen. simpl in Hlen.
    destruct (sextet_match_groups l x post) as (e & post' & ->);
      [lia | exact Hnum | discriminate].
Qed.

Lemma match_sextet_at : forall msg k r,
  (k <= String.length msg)%nat ->
  match_groups 5 (drop k msg) = Some r -> sextet_at msg k.
Proof.
  intros msg k [gs tl] Hk H.
  destruct (match_groups_sound _ _ _ _ H) as (Hd & Hlen & Hnum & _).
  exists (take k msg), gs, tl. repeat split; auto.
  - rewrite <- Hd. symmetry. apply take_drop.
  - now apply length_take.
Qed.

Lemma FindStringSubmatch_eq : forall s,
  FindStringSubmatch s =
  match match_groups 5 s with
  | Some (gs, _) => Some (Join gs "," :: gs)
  | None =>
      match s with
      | EmptyString => None
      | String _ s' => FindStringSubmatch s'
      end
  end.
Proof. destruct s; reflexivity. Qed.

Lemma FindStringSubmatch_skip : forall pre s,
  (forall k, (k < String.length pre)%nat -> ~ sextet_at (pre ++ s) k) ->
  FindStringSubmatch (pre ++ s) = FindStringSubmatch s.
Proof.
  induction pre as [|c pre IH]; intros s H; [reflexivity|].
  rewrite FindStringSubmatch_eq.
  destruct (match_groups 5 (String c pre ++ s)) as [r|] eqn:Hm.
  - exfalso. apply (H 0%nat); [simpl; lia|].
    apply match_sextet_at with r; [lia | exact Hm].
  - cbn [append]. apply IH. intros k Hk Hs. apply (H (S k)); [simpl; lia|].
    destruct Hs as (p & ds & post & Heq & Hlen & Hrest).
    exists (String c p), ds, post. cbn [append]. rewrite Heq.
    repeat split; simpl; auto; apply Hrest.
Qed.

Lemma FindStringSubmatch_none : forall s,
  (forall k, ~ sextet_at s k) -> FindStringSubmatch s = None.
Proof.
  induction s as [|c s IH]; intros H; rewrite FindStringSubmatch_eq.
  - destruct (match_groups 5 "") as [r|] eqn:Hm; [|reflexivity].
    exfalso. apply (H 0%nat). apply match_sextet_at with r; [lia | exact Hm].
  - destruct (match_groups 5 (String c s)) as [r|] eqn:Hm.
    + exfalso. apply (H 0%nat). apply match_sextet_at with r; [lia | exact Hm].
    + apply IH. intros k (p & ds & post & Heq & Hlen & Hrest).
      apply (H (S k)). exists (String c p), ds, post. cbn [append].
      rewrite Heq. repeat split; simpl; auto; apply Hrest.
Qed.

(** The match is the leftmost sextet, with all the digits of its last
    number. *)
Lemma FindStringSubmatch_leftmost : forall pre ds post,
  List.length ds = 6%nat -> Forall number ds ->
  (forall k, (k < String.length pre)%nat ->
             ~ sextet_at (pre ++ Join ds "," ++ post) k) ->
  starts_with_digit post = false ->
  FindStringSubmatch (pre ++ Join ds "," ++ post) = Some (Join ds "," :: ds).
Proof.
  intros pre ds post Hlen Hnum Hleft Hpost.
  rewrite FindStringSubmatch_skip by exact Hleft.
  rewrite FindStringSubmatch_eq, match_groups_complete; auto.
Qed.

Lemma is_digit_not_sign : forall c,
  is_digit c = true -> Ascii.eqb c "-" = false /\ Ascii.eqb c "+" = false.
Proof.
  intros c H. destruct c as [[] [] [] [] [] [] [] []];
    try discriminate H; split; reflexivity.
Qed.

Lemma parse_digits_total : forall s acc,
  all_digits s = true -> 0 <= acc ->
  exists v, parse_digits s acc = Some v /\ 0 <= v.
Proof.
  induction s as [|c s IH]; intros acc Hs Hacc; simpl in *.
  - eauto.
  - apply andb_prop in Hs. destruct Hs as [Hc Hs]. rewrite Hc.
    apply IH; [exact Hs|]. unfold is_digit, digit_val in *.
    apply andb_prop in Hc. destruct Hc as [Hlo _].
    apply Nat.leb_le in Hlo. lia.
Qed.

Lemma decimal_nonneg : forall d, number d -> 0 <= decimal d.
Proof.
  intros d [_ Hd]. unfold decimal.
  destruct (parse_digits_total d 0 Hd) as (v & -> & Hv); lia.
Qed.

Lemma Atoi_number : forall d,
  number d ->
  fst (Atoi d) = if decimal d <=? maxInt then decimal d else maxInt.
Proof.
  intros d [Hne Hd]. unfold decimal.
  destruct (parse_digits_total d 0 Hd) as (v & Hv & Hpos); [lia|].
  destruct d as [|c r]; [contradiction|].
  simpl in Hd. apply andb_prop in Hd. destruct Hd as [Hc _].
  destruct (is_digit_not_sign c Hc) as [Hm Hp].
  unfold Atoi. rewrite Hm, Hp. cbn [orb]. rewrite Hv.
  destruct (Z.ltb_spec maxInt v), (Z.leb_spec v maxInt); try lia; reflexivity.
Qed.

Lemma byte_Atoi_number : forall d,
  number d -> byte (fst (Atoi d)) = component_byte d.
Proof.
  intros d Hd. rewrite (Atoi_number d Hd). unfold component_byte, byte.
  destruct (decimal d <=? maxInt); reflexivity.
Qed.

Lemma component_byte_range : forall d, 0 <= component_byte d < 2 ^ 8.
Proof.
  intros d. unfold component_byte. destruct (decimal d <=? maxInt).
  - apply Z.mod_pos_bound. reflexivity.
  - split; [lia | reflexivity].
Qed.

Lemma component_byte_small : forall d,
  number d -> decimal d < 256 -> component_byte d = decimal d.
Proof.
  intros d Hd Hlt. pose proof (decimal_nonneg d Hd) as Hpos.
  unfold component_byte.
  assert (Hmax : decimal d <= maxInt) by (unfold maxInt, intSize; simpl; lia).
  apply Z.leb_le in Hmax. rewrite Hmax.
  apply Z.mod_small. change (2 ^ 8) with 256. lia.
Qed.

Lemma port_of_bytes : forall a b,
  0 <= b < 2 ^ 8 -> Z.lor (Z.shiftl a 8) b = a * 256 + b.
Proof.
  intros a b Hb.
  assert (Hland : Z.land (Z.shiftl a 8) b = 0).
  { apply Z.bits_inj'. intros n Hn.
    rewrite Z.land_spec, Z.bits_0.
    destruct (Z.lt_ge_cases n 8) as [Hlt|Hge].
    - now rewrite Z.shiftl_spec_low.
    - rewrite <- (Z.mod_small b (2 ^ 8)) by exact Hb.
      rewrite Z.mod_pow2_bits_high by lia. apply andb_false_r. }
  pose proof (Z.add_lor_land (Z.shiftl a 8) b) as H.
  rewrite Hland in H. rewrite (Z.shiftl_mul_pow2 a 8) in H at 2 by lia.
  change (2 ^ 8) with 256 in H. lia.
Qed.

Ltac split_Forall :=
  repeat match goal with
         | H : Forall _ (_ :: _) |- _ => inversion H; clear H; subst
         end.

(** The address [parsePasvReply] builds from the leftmost sextet. *)
Lemma parsePasvReply_leftmost : forall pre d1 d2 d3 d4 d5 d6 post,
  Forall number [d1; d2; d3; d4; d5; d6] ->
  (forall k, (k < String.length pre)%nat ->
     ~ sextet_at (pre ++ Join [d1; d2; d3; d4; d5; d6] "," ++ post) k) ->
  starts_with_digit post = false ->
  parsePasvReply (pre ++ Join [d1; d2; d3; d4; d5; d6] "," ++ post)
  = (Some {| addrIP := [component_byte d1; component_byte d2;
                        component_byte d3; component_byte d4];
             addrPort := component_byte d5 * 256 + component_byte d6 |},
     None).
Proof.
  intros pre d1 d2 d3 d4 d5 d6 post Hnum Hleft Hpost.
  unfold parsePasvReply.
  rewrite (FindStringSubmatch_leftmost pre [d1; d2; d3; d4; d5; d6] post
             eq_refl Hnum Hleft Hpost).
  cbn [map firstn skipn nth].
  split_Forall.
  rewrite !byte_Atoi_number by assumption.
  rewrite port_of_bytes by apply component_byte_range.
  reflexivity.
Qed.

Lemma no_match_before_spec : forall msg n,
  no_match_before msg n = true ->
  forall k, (k < n)%nat -> ~ sextet_at msg k.
Proof.
  intros msg n H k Hk Hs. unfold no_match_before in H.
  rewrite forallb_forall in H. specialize (H k).
  destruct (sextet_at_match _ _ Hs) as [_ Hm].
  destruct (match_groups 5 (drop k msg)); [|now apply Hm].
  assert (false = true); [|discriminate].
  apply H. apply in_seq. lia.
Qed.

Lemma no_match_anywhere : forall msg,
  no_match_before msg (S (String.length msg)) = true ->
  forall k, ~ sextet_at msg k.
Proof.
  intros msg H k Hs. destruct (sextet_at_match _ _ Hs) as [Hk _].
  apply (no_match_before_spec msg _ H k); [lia | exact Hs].
Qed.

(** C7, as the code has it. When the leftmost six comma-separated
    numbers of a message are the decimal byte values h1,h2,h3,h4,p1,p2,
    whatever text stands before and after them, [parsePasvReply] returns
    host h1.h2.h3.h4 and port p1*256 + p2; a message in which no six
    comma-separated numbers occur, of whatever size, yields the error
    "PASV reply provided no port". *)
Theorem parsePasvReply_sextet_C7 :
  (forall pre d1 d2 d3 d4 d5 d6 post,
     Forall number [d1; d2; d3; d4; d5; d6] ->
     Forall (fun d => decimal d < 256) [d1; d2; d3; d4; d5; d6] ->
     (forall k, (k < String.length pre)%nat ->
        ~ sextet_at (pre ++ Join [d1; d2; d3; d4; d5; d6] "," ++ post) k) ->
     starts_with_digit post = false ->
     parsePasvReply (pre ++ Join [d1; d2; d3; d4; d5; d6] "," ++ post)
     = (Some {| addrIP := [decimal d1; decimal d2; decimal d3; decimal d4];
                addrPort := decimal d5 * 256 + decimal d6 |}, None)) /\
  (forall msg, (forall k, ~ sextet_at msg k) ->
               parsePasvReply msg = (None, Some errPasvNoPort)) /\
  parsePasvReply "227 Entering Passive Mode. 192,0,2,47,4,7"
  = (Some {| addrIP := [192; 0; 2; 47]; addrPort := 1031 |}, None).
Proof.
  split; [|split; [|reflexivity]].
  - intros pre d1 d2 d3 d4 d5 d6 post Hnum Hbyte Hleft Hpost.
    rewrite (parsePasvReply_leftmost _ _ _ _ _ _ _ _ Hnum Hleft Hpost).
    split_Forall.
    rewrite !component_byte_small by assumption. reflexivity.
  - intros msg Hno. unfold parsePasvReply.
    now rewrite (FindStringSubmatch_none msg Hno).
Qed.

Lemma parsePasvReply_sextet_C7_witness :
  parsePasvReply ("227 Entering Passive Mode ("
                  ++ Join ["192"; "0"; "2"; "47"; "4"; "7"] "," ++ ").")
  = (Some {| addrIP := [192; 0; 2; 47]; addrPort := 1031 |}, None) /\
  parsePasvReply "227 Entering Passive Mode" = (None, Some errPasvNoPort).
Proof.
  split.
  - apply (proj1 parsePasvReply_sextet_C7 "227 Entering Passive Mode ("
             "192" "0" "2" "47" "4" "7" ").").
    + repeat constructor; discriminate.
    + repeat constructor.
    + apply no_match_before_spec. vm_compute. reflexivity.
    + reflexivity.
  - apply (proj1 (proj2 parsePasvReply_sextet_C7)).
    apply no_match_anywhere. vm_compute. reflexivity.
Defined.

Lemma byte_sextet_check : forall msg k ds,
  byte_sextet_at msg k ds ->
  (k <= String.length msg)%nat /\ no_byte_sextet_check msg k = false.
Proof.
  intros msg k ds (pre & post & Hmsg & Hk & Hlen & Hnum & Hbyte).
  split; [subst; rewrite length_append; lia|].
  unfold no_byte_sextet_check.
  destruct (exists_last (l := ds)) as (l & x & ->);
    [intros ->; discriminate|].
  rewrite length_app in Hlen. simpl in Hlen.
  destruct (sextet_match_groups l x post) as (e & post' & Hm);
    [lia | exact Hnum |].
  rewrite Hmsg, <- Hk, drop_append, Hm.
  rewrite firstn_app, firstn_all2 by lia.
  replace (5 - List.length l)%nat with 0%nat by lia.
  cbn [firstn]. rewrite app_nil_r.
  apply not_true_is_false. intros Hex.
  apply existsb_exists in Hex. destruct Hex as (d & Hin & Hd).
  apply Forall_app in Hbyte. destruct Hbyte as [Hl _].
  rewrite Forall_forall in Hl. specialize (Hl d Hin).
  apply Z.leb_le in Hd. lia.
Qed.

Lemma no_byte_sextet : forall msg,
  forallb (no_byte_sextet_check msg) (seq 0 (S (String.length msg))) = true ->
  forall k ds, ~ byte_sextet_at msg k ds.
Proof.
  intros msg H k ds Hs. destruct (byte_sextet_check _ _ _ Hs) as [Hk Hc].
  rewrite forallb_forall in H. rewrite H in Hc; [discriminate|].
  apply in_seq. lia.
Qed.

(** The message holds no six comma-separated byte values anywhere, its
    fourth number being 999, and yet an address is returned. *)
Lemma parsePasvReply_sextet_C7_counterexample :
  (forall k ds,
     ~ byte_sextet_at "227 Entering Passive Mode (192,0,2,999,4,7)" k ds) /\
  parsePasvReply "227 Entering Passive Mode (192,0,2,999,4,7)"
  = (Some {| addrIP := [192; 0; 2; 231]; addrPort := 1031 |}, None).
Proof.
  split; [|reflexivity].
  apply no_byte_sextet. vm_compute. reflexivity.
Qed.

(** C10, as the code has it. A number of the matched sextet above 255
    never makes [parsePasvReply] reject the reply. Each number is stored
    as [component_byte]: the low eight bits of its value when the value
    fits [int], and 255 when it does not, [Atoi] then answering the
    largest [int]. So 999,0,2,47 gives host 231.0.2.47. *)
Theorem parsePasvReply_truncates_C10 :
  (forall pre d1 d2 d3 d4 d5 d6 post,
     Forall number [d1; d2; d3; d4; d5; d6] ->
     (forall k, (k < String.length pre)%nat ->
        ~ sextet_at (pre ++ Join [d1; d2; d3; d4; d5; d6] "," ++ post) k) ->
     starts_with_digit post = false ->
     parsePasvReply (pre ++ Join [d1; d2; d3; d4; d5; d6] "," ++ post)
     = (Some {| addrIP := [component_byte d1; component_byte d2;
                           component_byte d3; component_byte d4];
                addrPort := component_byte d5 * 256 + component_byte d6 |},
        None)) /\
  (forall d, decimal d <= maxInt -> component_byte d = decimal d mod 2 ^ 8) /\
  (forall d, maxInt < decimal d -> component_byte d = 255) /\
  parsePasvReply "227 Entering Passive Mode (999,0,2,47,4,7)"
  = (Some {| addrIP := [231; 0; 2; 47]; addrPort := 1031 |}, None).
Proof.
  split; [exact parsePasvReply_leftmost|].
  repeat split.
  - intros d H. unfold component_byte. apply Z.leb_le in H. now rewrite H.
  - intros d H. unfold component_byte. apply Z.leb_gt in H. now rewrite H.
Qed.

Lemma parsePasvReply_truncates_C10_witness :
  parsePasvReply ("227 Entering Passive Mode ("
                  ++ Join ["999"; "0"; "2"; "47"; "4"; "7"] "," ++ ").")
  = (Some {| addrIP := [231; 0; 2; 47]; addrPort := 1031 |}, None) /\
  component_byte "999" = decimal "999" mod 2 ^ 8 /\
  component_byte "9223372036854775808" = 255.
Proof.
  split; [|split].
  - apply (proj1 parsePasvReply_truncates_C10 "227 Entering Passive Mode ("
             "999" "0" "2" "47" "4" "7" ").").
    + repeat constructor; discriminate.
    + apply no_match_before_spec. vm_compute. reflexivity.
    + reflexivity.
  - apply (proj1 (proj2 parsePasvReply_truncates_C10)). vm_compute. discriminate.
  - apply (proj1 (proj2 (proj2 parsePasvReply_truncates_C10))). reflexivity.
Defined.

(** The first number of this sextet is 2^63: its low eight bits are 0,
    yet the host starts with 255. *)
Lemma parsePasvReply_low_bits_C10_counterexample :
  decimal "9223372036854775808" mod 2 ^ 8 = 0 /\
  parsePasvReply "227 Entering Passive Mode (9223372036854775808,0,2,47,4,7)"
  = (Some {| addrIP := [255; 0; 2; 47]; addrPort := 1031 |}, None).
Proof. split; reflexivity. Qed.

(** ** The passive address *)

(** Whatever the address family, a result of [obtainPassiveAddress] is a
    result of the PASV path. *)
Lemma obtainPassiveAddress_is_PASV : forall c w r w',
  obtainPassiveAddress c w = (Done r, w') ->
  exists w1, obtainPassiveAddress4 w1 = (Done r, w').
Proof.
  intros c w r w' H. unfold obtainPassiveAddress, bind in H.
  destruct (String.eqb (Network (RemoteAddr c)) "tcp6").
  - destruct (obtainPassiveAddress6 c w) as [[a|] w1]; [|discriminate].
    unfold ret in H. eauto.
  - unfold ret in H. eauto.
Qed.

(** C1, at the inputs where the code departs from it. With an IPv6 TCP
    peer the network name of the remote address is "tcp", so PASV alone
    is sent. With a remote address that reports "tcp6", EPSV is sent,
    its rejection is dropped, PASV is sent and the PASV address is
    returned; the first revision returns the rejected reply there. *)
Theorem obtainPassiveAddress_ipv6_C1 :
  obtainPassiveAddress peer6 (world0 [pasv_line])
  = (Done (Some pasv_addr, None),
     mkWorld [] (TransportError "EOF") None None None
             [EvSend "PASV"; EvReply]) /\
  obtainPassiveAddress peer_tcp6
    (world0 ["500 EPSV not understood"; pasv_line])
  = (Done (Some pasv_addr, None),
     mkWorld [] (TransportError "EOF") None None None
             [EvSend "EPSV"; EvReply; EvSend "PASV"; EvReply]) /\
  obtainPassiveAddress_rev1 peer_tcp6
    (world0 ["500 EPSV not understood"; pasv_line])
  = (Done (None, Some (ReplyError (mkReply 500 "EPSV not understood"))),
     mkWorld [pasv_line] (TransportError "EOF") None None None
             [EvSend "EPSV"; EvReply]).
Proof. repeat split; reflexivity. Qed.

(** ** transfer *)

(** C3, at the input where the code departs from it. The transfer
    command is rejected with 550 after the data connection was dialled:
    the current revision returns the reply as the error and the trace
    holds no close of the data connection. A failure of the transport on
    the same command does close it, and so does the first revision on
    the rejected command. *)
Theorem transfer_rejected_command_C3 :
  transfer peer4 "RETR missing" "I"
    (world0 ["200 Type set to I"; pasv_line; "550 No such file"])
  = (Done (Reply0, None, Some (ReplyError (mkReply 550 "No such file"))),
     mkWorld [] (TransportError "EOF") None None None
             [EvSend "TYPE I"; EvReply; EvSend "PASV"; EvReply;
              EvDial pasv_addr; EvSend "RETR missing"; EvReply]) /\
  transfer peer4 "RETR missing" "I" (world0 ["200 Type set to I"; pasv_line])
  = (Done (Reply0, None, Some (TransportError "EOF")),
     mkWorld [] (TransportError "EOF") None None None
             [EvSend "TYPE I"; EvReply; EvSend "PASV"; EvReply;
              EvDial pasv_addr; EvSend "RETR missing"; EvReply; EvDataClose]) /\
  transfer_rev1 peer4 "RETR missing" "I"
    (world0 ["200 Type set to I"; pasv_line; "550 No such file"])
  = (Done (None, Some (ReplyError (mkReply 550 "No such file"))),
     mkWorld [] (TransportError "EOF") None None None
             [EvSend "TYPE I"; EvReply; EvSend "PASV"; EvReply;
              EvDial pasv_addr; EvSend "RETR missing"; EvReply; EvDataClose]) /\
  transfer_rev2 peer4 "RETR missing" "I" (world0 ["200 Type set to I"; pasv_line])
  = (Done (None, Some (TransportError "EOF")),
     mkWorld [] (TransportError "EOF") None None None
             [EvSend "TYPE I"; EvReply; EvSend "PASV"; EvReply;
              EvDial pasv_addr; EvSend "RETR missing"; EvReply]).
Proof. repeat split; reflexivity. Qed.

(** ** Close of the transfer connection *)

(** The reply reader always returns, and counts as one reply read. *)
Lemma response_total : forall w,
  exists r w', response w = (Done r, w') /\
               trace w' = (trace w ++ [EvReply])%list.
Proof.
  intros w. destruct (ctl_in w) as [|line rest] eqn:Hin.
  - unfold response, bind, emit, ReadLine. cbn [ctl_in log]. rewrite Hin.
    eexists _, _. split; reflexivity.
  - destruct (String.length line <? 4)%nat eqn:Hlen.
    + unfold response, bind, emit, ReadLine. cbn [ctl_in log].
      rewrite Hin, Hlen. eexists _, _. split; reflexivity.
    + destruct (Atoi (take 3 line)) as [code [e|]] eqn:Hcode.
      * unfold response, bind, emit, ReadLine. cbn [ctl_in log].
        rewrite Hin, Hlen, Hcode. eexists _, _. split; reflexivity.
      * rewrite (response_first_line w line rest code Hin Hlen Hcode).
        destruct (String.get 3 line) as [c|];
          [|eexists _, _; split; reflexivity].
        destruct (Ascii.eqb c "-");
          [|destruct (Ascii.eqb c " "); eexists _, _; split; reflexivity].
        destruct (response_loop _ _ _ _) as [[lines err] rest'].
        eexists _, _. split; reflexivity.
Qed.

(** C4, as the code has it. [Close] first closes the data transport. If
    that close fails, its error is the result and no reply is read. If
    it succeeds, exactly one reply is read on the control connection,
    whether or not the data connection was ever used: an error of that
    read or a reply that is not 2xx is the result, and a 2xx reply makes
    the result nil. *)
Theorem transferConn_Close_C4 : forall tc w,
  match data_close_err w with
  | Some e => transferConn_Close tc w = (Done (Some e), log w EvDataClose)
  | None =>
      exists r w',
        readResponse (log w EvDataClose) = (Done r, w') /\
        transferConn_Close tc w = (Done (close_result r), w') /\
        trace w' = (trace w ++ [EvDataClose; EvReply])%list
  end.
Proof.
  intros tc w. unfold transferConn_Close, bind, DataClose.
  destruct (data_close_err w) as [e|]; [reflexivity|].
  destruct (response_total (log w EvDataClose)) as ([reply err] & w' & Hr & Ht).
  exists (reply, err), w'. unfold readResponse. rewrite Hr.
  split; [reflexivity|]. split.
  - destruct err as [e|]; [reflexivity|]. unfold close_result.
    destruct (PositiveComplete reply); reflexivity.
  - rewrite Ht. cbn [trace log]. now rewrite <- app_assoc.
Qed.

(** The close of the data transport fails: [Close] returns that error,
    the trace holds no reply read and the closing reply of the server
    stays unread on the control connection. *)
Lemma transferConn_Close_C4_counterexample :
  transferConn_Close (mkTransferConn (dataConn pasv_addr) peer4)
    (mkWorld ["226 Transfer complete"] (TransportError "EOF") None None
             (Some (TransportError "close")) [])
  = (Done (Some (TransportError "close")),
     mkWorld ["226 Transfer complete"] (TransportError "EOF") None None
             (Some (TransportError "close")) [EvDataClose]).
Proof. reflexivity. Qed.

Example transferConn_Close_unused :
  transferConn_Close (mkTransferConn (dataConn pasv_addr) peer4)
    (world0 ["226 Transfer complete"])
  = (Done None,
     mkWorld [] (TransportError "EOF") None None None [EvDataClose; EvReply]) /\
  fst (transferConn_Close (mkTransferConn (dataConn pasv_addr) peer4)
         (world0 ["426 Connection closed; transfer aborted"]))
  = Done (Some (ReplyError (mkReply 426 "Connection closed; transfer aborted"))).
Proof. split; reflexivity. Qed.

(** ** The cancellable path *)

Module CancelFacts.
Import Cancel.

Lemma step_dropped : forall io a c, dropped c -> dropped (step io a c).
Proof.
  intros io a c (Hs & Hc & Hr). unfold dropped, silent in *.
  destruct a; cbn [step].
  - destruct (body c) as [|[] b] eqn:Hb; cbn; rewrite ?Hb; auto.
    + repeat split; auto. intros Hin. apply Hs. now right.
    + exfalso. apply Hs. now left.
  - destruct Hr as [Hr | (e' & Hr & Hd)].
    + destruct (done c); cbn; auto.
    + rewrite Hd. eauto 6.
  - destruct Hr as [Hr | (e' & Hr & Hd)]; rewrite Hr, ?Hc; eauto 6.
  - destruct Hr as [Hr | (e' & Hr & Hd)].
    + rewrite Hr. destruct (done c) as [e|] eqn:Hd; cbn; rewrite ?Hd; eauto 6.
    + rewrite Hr. eauto 6.
Qed.

Lemma run_dropped : forall io sched c, dropped c -> dropped (run io sched c).
Proof.
  intros io sched. induction sched as [|a sched IH]; intros c H; [exact H|].
  apply IH, step_dropped, H.
Qed.

Lemma init_dropped : dropped (init sendCommand_body).
Proof.
  repeat split; auto. intros [H|[]]. discriminate.
Qed.

End CancelFacts.

(** C2, at the input where the code departs from it. The unit answers
    200 OK before any cancellation: the caller of [sendCommand] stays
    blocked, and once the context is cancelled it gets the error of the
    context. On every schedule and for every result of the unit, a caller
    that has returned holds the error of a context that was cancelled,
    and the unit is never interrupted. [readWelcome], whose goroutine
    sends its result, hands the same reply to its caller. *)
Theorem sendCommand_cancellable_C2 :
  Cancel.caller (Cancel.run (mkReply 200 "OK", None)
                   [Cancel.Unit; Cancel.Receive]
                   (Cancel.init Cancel.sendCommand_body)) = None /\
  Cancel.caller (Cancel.run (mkReply 200 "OK", None)
                   [Cancel.Unit; Cancel.Receive;
                    Cancel.Fire Canceled; Cancel.ObserveDone]
                   (Cancel.init Cancel.sendCommand_body))
  = Some (Reply0, Some (ContextError Canceled)) /\
  (forall io sched r,
     Cancel.caller (Cancel.run io sched (Cancel.init Cancel.sendCommand_body))
     = Some r ->
     exists e, r = (Reply0, Some (ContextError e)) /\
               Cancel.done (Cancel.run io sched
                              (Cancel.init Cancel.sendCommand_body)) = Some e) /\
  Cancel.value (Cancel.run (mkReply 200 "OK", None)
                  [Cancel.Fire Canceled; Cancel.ObserveDone; Cancel.Unit]
                  (Cancel.init Cancel.sendCommand_body))
  = Some (mkReply 200 "OK", None) /\
  Cancel.caller (Cancel.run (mkReply 200 "OK", None)
                   [Cancel.Unit; Cancel.Unit; Cancel.Receive]
                   (Cancel.init Cancel.readWelcome_body))
  = Some (mkReply 200 "OK", None).
Proof.
  split; [reflexivity|]. split; [reflexivity|].
  split; [|split; reflexivity].
  intros io sched r H.
  destruct (CancelFacts.run_dropped io sched _ CancelFacts.init_dropped)
    as (_ & _ & [Hn | (e & He & Hd)]).
  - rewrite Hn in H. discriminate.
  - rewrite He in H. inversion H. eauto.
Qed.

(* ================================================================== *)
(** * Further properties of the code *)

(** ** The reply reader and the command channel *)

Lemma reply_line_parts : forall code text,
  100 <= code <= 999 ->
  (String.length (reply_line code text) <? 4)%nat = false /\
  Atoi (take 3 (reply_line code text)) = (code, None) /\
  String.get 3 (reply_line code text) = Some " "%char /\
  drop 4 (reply_line code text) = text.
Proof.
  intros code text Hc. unfold reply_line.
  destruct (Itoa_three_digits code Hc) as [Hlen Hatoi].
  repeat split.
  - apply Nat.ltb_ge. rewrite length_append, Hlen. simpl. lia.
  - rewrite <- Hlen, take_append. exact Hatoi.
  - rewrite <- Hlen. apply get_append_length.
  - rewrite <- append_assoc.
    replace 4%nat with (String.length (Itoa code ++ " ")).
    + apply drop_append.
    + rewrite length_append, Hlen. reflexivity.
Qed.

(** A single-line reply, a three-digit code, a space and text, is read as
    exactly that code and that text; one line is consumed. *)
Theorem response_single_line_reply : forall w code text rest,
  100 <= code <= 999 ->
  ctl_in w = reply_line code text :: rest ->
  response w = (Done (mkReply code text, None), advance w rest [EvReply]).
Proof.
  intros w code text rest Hc Hin.
  destruct (reply_line_parts code text Hc) as (Hl & Ha & Hg & Hd).
  rewrite (response_first_line w _ rest code Hin Hl Ha), Hg, Hd.
  reflexivity.
Qed.

Lemma response_single_line_reply_witness :
  response (world0 ["201 Hello, World"; "next"])
  = (Done (mkReply 201 "Hello, World", None),
     advance (world0 ["201 Hello, World"; "next"]) ["next"] [EvReply]).
Proof.
  apply (response_single_line_reply _ 201 "Hello, World" ["next"]).
  - lia.
  - reflexivity.
Defined.

Lemma response_loop_frame : forall p fail input acc,
  exists consumed,
    input = (consumed ++ snd (response_loop p input fail acc))%list.
Proof.
  intros p fail input. induction input as [|l input IH]; intros acc; simpl.
  - exists []. reflexivity.
  - destruct (HasPrefix l p).
    + exists [l]. reflexivity.
    + destruct (IH (acc ++ [l])%list) as [consumed H].
      exists (l :: consumed). simpl. now rewrite <- H.
Qed.

(** The reply reader only reads: it leaves the failures of the world and
    the data connection alone, adds one reply read to the trace, and what
    it leaves on the control connection is a suffix of what was there. As
    long as a line is available it consumes at least one. *)
Theorem response_frame : forall w,
  exists r consumed rest,
    response w = (Done r, advance w rest [EvReply]) /\
    ctl_in w = (consumed ++ rest)%list /\
    (ctl_in w <> [] -> consumed <> []).
Proof.
  intros w. destruct (ctl_in w) as [|line rest] eqn:Hin.
  - exists (Reply0, Some (ctl_in_err w)), [], [].
    unfold response, bind, emit, ReadLine. cbn [ctl_in log]. rewrite Hin.
    repeat split; auto. unfold advance, ret, log. cbn. rewrite Hin. reflexivity.
  - assert (Hone : forall r, exists (r0 : Reply * option error) consumed rest0,
               (Done r, set_in (log w EvReply) rest)
               = (Done r0, advance w rest0 [EvReply]) /\
               line :: rest = (consumed ++ rest0)%list /\
               (line :: rest <> [] -> consumed <> [])).
    { intros r. exists r, [line], rest. repeat split; auto. discriminate. }
    destruct (String.length line <? 4)%nat eqn:Hlen.
    + unfold response, bind, emit, ReadLine. cbn [ctl_in log].
      rewrite Hin, Hlen. apply Hone.
    + destruct (Atoi (take 3 line)) as [code [e|]] eqn:Hcode.
      * unfold response, bind, emit, ReadLine. cbn [ctl_in log].
        rewrite Hin, Hlen, Hcode. apply Hone.
      * rewrite (response_first_line w line rest code Hin Hlen Hcode).
        destruct (String.get 3 line) as [c|]; [|apply Hone].
        destruct (Ascii.eqb c "-");
          [|destruct (Ascii.eqb c " "); apply Hone].
        destruct (response_loop_frame (Itoa code ++ " ") (ctl_in_err w) rest
                    [drop 4 line]) as [consumed Hc].
        destruct (response_loop _ _ _ _) as [[lines err] rest'].
        cbn [snd] in Hc.
        exists (mkReply code (Join lines LF), err), (line :: consumed), rest'.
        repeat split; [now rewrite Hc | discriminate].
Qed.

(** When the write of the command fails, [sendCmd] returns that error
    with the zero Reply, reads nothing and leaves the world as it was.
    Otherwise it writes the one command line and then reads one reply:
    the trace gains the command and one reply read, in this order. *)
Theorem sendCmd_frame : forall command w,
  match ctl_out_err w with
  | Some e => sendCmd command w = (Done (Reply0, Some e), w)
  | None =>
      exists r consumed rest,
        sendCmd command w
        = (Done r, advance w rest [EvSend command; EvReply]) /\
        ctl_in w = (consumed ++ rest)%list
  end.
Proof.
  intros command w. unfold sendCmd, bind, PrintfLine.
  destruct (ctl_out_err w) as [e|] eqn:Hout; [reflexivity|].
  destruct (response_frame (log w (EvSend command)))
    as (r & consumed & rest & Hr & Hin & _).
  exists r, consumed, rest. rewrite Hr. split; [|exact Hin].
  unfold advance. cbn. rewrite Hout, <- app_assoc. reflexivity.
Qed.

Lemma sendCmd_single_line : forall command w code text rest,
  ctl_out_err w = None ->
  100 <= code <= 999 ->
  ctl_in w = reply_line code text :: rest ->
  sendCmd command w
  = (Done (mkReply code text, None),
     advance w rest [EvSend command; EvReply]).
Proof.
  intros command w code text rest Hout Hc Hin.
  unfold sendCmd, bind, PrintfLine. rewrite Hout.
  rewrite (response_single_line_reply _ code text rest Hc) by exact Hin.
  unfold advance. cbn. rewrite Hout, <- app_assoc. reflexivity.
Qed.



(** ** Login *)







(** On every world, and whatever the server sends, [Login] writes the
    PASS line only after a reply to USER with code 331 was read without
    error. *)
Theorem Login_password_only_on_request : forall username password w r w',
  Login username password w = (r, w') ->
  In (EvSend ("PASS " ++ password)) (trace w') ->
  ~ In (EvSend ("PASS " ++ password)) (trace w) ->
  exists reply w1,
    sendCommand ("USER " ++ username) w = (Done (reply, None), w1) /\
    Code reply = 331.
Proof.
  intros username password w r w' HL Hin Hnot.
  unfold Login, bind, sendCommand in *.
  pose proof (sendCmd_frame ("USER " ++ username) w) as Hf.
  destruct (ctl_out_err w) as [e|].
  - rewrite Hf in HL. inversion HL; subst. contradiction.
  - destruct Hf as ([reply err] & consumed & rest & Hs & _).
    rewrite Hs in HL.
    assert (Hfresh : ~ In (EvSend ("PASS " ++ password))
                       (trace (advance w rest
                                 [EvSend ("USER " ++ username); EvReply]))).
    { cbn [trace advance]. rewrite in_app_iff. intros [H|[H|[H|[]]]];
        [contradiction | discriminate | discriminate]. }
    destruct err as [e|].
    + inversion HL; subst. contradiction.
    + destruct (Z.eqb_spec (Code reply) CodeNeedPassword) as [Heq|Hne].
      * exists reply, (advance w rest [EvSend ("USER " ++ username); EvReply]).
        split; [exact Hs | exact Heq].
      * unfold ret at 1 in HL.
        destruct (negb (PositiveComplete reply));
          inversion HL; subst; contradiction.
Qed.

Lemma Login_password_only_on_request_witness :
  exists reply w1,
    sendCommand ("USER " ++ "a")
      (world0 ["331 Password required"; "230 Login ok"])
    = (Done (reply, None), w1) /\ Code reply = 331.
Proof.
  apply (Login_password_only_on_request "a" "b"
           (world0 ["331 Password required"; "230 Login ok"])
           (Done None)
           (advance (world0 ["331 Password required"; "230 Login ok"]) []
                    [EvSend "USER a"; EvReply; EvSend "PASS b"; EvReply])).
  - reflexivity.
  - simpl. auto.
  - simpl. auto.
Defined.

(** ** Dial, NewClient, Quit *)

Module FacadeFacts.
Import Facade.

Lemma lift_sendCmd_single_line : forall command s code text rest,
  ctl_out_err (world s) = None ->
  100 <= code <= 999 ->
  ctl_in (world s) = reply_line code text :: rest ->
  lift (sendCommand command) s
  = (Done (mkReply code text, None),
     mkSession (advance (world s) rest [EvSend command; EvReply])
               (ctl_dial_err s) (ctl_remote s) (ctl_close_err s) (ctl_log s)).
Proof.
  intros command s code text rest Hout Hc Hin. unfold lift, sendCommand.
  now rewrite (sendCmd_single_line command _ code text rest Hout Hc Hin).
Qed.

End FacadeFacts.

(** [Quit] does not look at the code of the reply: after any reply to
    QUIT, also a 4xx or 5xx one, it closes the control connection once
    and returns what the close returns. *)
Theorem Quit_closes_after_any_reply : forall s code text rest,
  ctl_out_err (Facade.world s) = None ->
  100 <= code <= 999 ->
  ctl_in (Facade.world s) = reply_line code text :: rest ->
  Facade.Quit s
  = (Done (Facade.ctl_close_err s),
     Facade.mkSession
       (advance (Facade.world s) rest [EvSend "QUIT"; EvReply])
       (Facade.ctl_dial_err s) (Facade.ctl_remote s) (Facade.ctl_close_err s)
       (Facade.ctl_log s ++ [Facade.CtlClose])%list).
Proof.
  intros s code text rest Hout Hc Hin. unfold Facade.Quit, Facade.bindS.
  rewrite (FacadeFacts.lift_sendCmd_single_line _ s code text rest Hout Hc Hin).
  reflexivity.
Qed.

Lemma Quit_closes_after_any_reply_witness :
  Facade.Quit (Facade.mkSession (world0 ["500 Unknown command"]) None
                 (AddrOther "pipe") None [])
  = (Done None,
     Facade.mkSession
       (advance (world0 ["500 Unknown command"]) [] [EvSend "QUIT"; EvReply])
       None (AddrOther "pipe") None [Facade.CtlClose]).
Proof.
  apply (Quit_closes_after_any_reply
           (Facade.mkSession (world0 ["500 Unknown command"]) None
              (AddrOther "pipe") None []) 500 "Unknown command" []).
  - reflexivity.
  - lia.
  - reflexivity.
Defined.



(** [Dial] refuses a network name that does not start with "tcp" before
    anything is dialled: the session is left as it was. With such a name
    and a dial that fails, the error of the dial is returned and no reply
    is read. *)
Theorem Dial_guards : forall network addr s,
  (HasPrefix network "tcp" = false ->
   Facade.Dial network addr s = (Done (None, Some Facade.errOnlyTCP), s)) /\
  (HasPrefix network "tcp" = true ->
   forall e, Facade.ctl_dial_err s = Some e ->
   Facade.Dial network addr s
   = (Done (None, Some e), Facade.logS s (Facade.CtlDial network addr))).
Proof.
  intros network addr s. unfold Facade.Dial. split.
  - intros ->. reflexivity.
  - intros Hn e Hd. rewrite Hn. cbn [negb]. rewrite Hd. reflexivity.
Qed.

Lemma Dial_guards_witness :
  Facade.Dial "udp" "192.0.2.1:21"
    (Facade.mkSession (world0 ["220 Ready"]) None (AddrOther "udp") None [])
  = (Done (None, Some Facade.errOnlyTCP),
     Facade.mkSession (world0 ["220 Ready"]) None (AddrOther "udp") None []) /\
  Facade.Dial "tcp4" "192.0.2.1:21"
    (Facade.mkSession (world0 ["220 Ready"]) (Some (TransportError "refused"))
       (AddrOther "none") None [])
  = (Done (None, Some (TransportError "refused")),
     Facade.logS
       (Facade.mkSession (world0 ["220 Ready"])
          (Some (TransportError "refused")) (AddrOther "none") None [])
       (Facade.CtlDial "tcp4" "192.0.2.1:21")).
Proof.
  split.
  - apply (proj1 (Dial_guards "udp" "192.0.2.1:21" _)). reflexivity.
  - apply (proj2 (Dial_guards "tcp4" "192.0.2.1:21"
                    (Facade.mkSession (world0 ["220 Ready"])
                       (Some (TransportError "refused"))
                       (AddrOther "none") None []))
             eq_refl (TransportError "refused")).
    reflexivity.
Defined.

(** A dial that succeeds yields a client for every welcome reply that can
    be framed, whatever its code: the code of the welcome is stored, not
    examined. One reply is read. *)
Theorem Dial_accepts_any_welcome : forall network addr s code text rest,
  HasPrefix network "tcp" = true ->
  Facade.ctl_dial_err s = None ->
  100 <= code <= 999 ->
  ctl_in (Facade.world s) = reply_line code text :: rest ->
  Facade.Dial network addr s
  = (Done (Some (Facade.mkConnected (mkClient (Facade.ctl_remote s))
                   (mkReply code text)), None),
     Facade.mkSession (advance (Facade.world s) rest [EvReply])
       None (Facade.ctl_remote s) (Facade.ctl_close_err s)
       (Facade.ctl_log s ++ [Facade.CtlDial network addr])%list).
Proof.
  intros network addr s code text rest Hnet Hdial Hc Hin.
  unfold Facade.Dial. rewrite Hnet. cbn [negb]. rewrite Hdial.
  unfold Facade.NewClient, Facade.bindS, Facade.lift, Facade.logS.
  cbn [Facade.world].
  rewrite (response_single_line_reply _ code text rest Hc Hin).
  cbn. rewrite Hdial. reflexivity.
Qed.

Lemma Dial_accepts_any_welcome_witness :
  Facade.Dial "tcp" "192.0.2.1:21"
    (Facade.mkSession (world0 ["421 Service not available"]) None
       (AddrTCP (mkTCPAddr [192; 0; 2; 1] 21)) None [])
  = (Done (Some (Facade.mkConnected peer4
                   (mkReply 421 "Service not available")), None),
     Facade.mkSession
       (advance (world0 ["421 Service not available"]) [] [EvReply])
       None (AddrTCP (mkTCPAddr [192; 0; 2; 1] 21)) None
       [Facade.CtlDial "tcp" "192.0.2.1:21"]).
Proof.
  apply (Dial_accepts_any_welcome "tcp" "192.0.2.1:21"
           (Facade.mkSession (world0 ["421 Service not available"]) None
              (AddrTCP (mkTCPAddr [192; 0; 2; 1] 21)) None [])
           421 "Service not available" []).
  - reflexivity.
  - reflexivity.
  - lia.
  - reflexivity.
Defined.

(** ** The cancellable welcome read *)

Module WelcomeFacts.
Import Cancel.

Lemma step_welcomed : forall io a c, welcomed io c -> welcomed io (step io a c).
Proof.
  intros io a c (Hv & Hc & Hr). unfold welcomed.
  destruct a; cbn [step].
  - destruct (body c) as [|[] b]; cbn; auto.
    destruct Hv as [Hv|Hv], Hc as [Hc|Hc]; rewrite Hv, Hc; cbn; auto.
  - destruct Hr as [Hr | [Hr | (e' & Hr & Hd)]].
    + destruct (done c); cbn; auto.
    + destruct (done c); cbn; auto.
    + rewrite Hd. eauto 7.
  - destruct Hr as [Hr | [Hr | (e' & Hr & Hd)]]; rewrite Hr; eauto 7.
    destruct Hc as [Hc|Hc]; rewrite Hc; cbn; auto.
  - destruct Hr as [Hr | [Hr | (e' & Hr & Hd)]]; rewrite Hr; eauto 7.
    destruct (done c) as [e|] eqn:Hd; cbn; rewrite ?Hd; eauto 7.
Qed.

Lemma run_welcomed : forall io sched c,
  welcomed io c -> welcomed io (run io sched c).
Proof.
  intros io sched. induction sched as [|a sched IH]; intros c H; [exact H|].
  apply IH, step_welcomed, H.
Qed.

End WelcomeFacts.

(** On every schedule, a caller of the cancellable [readWelcome] that has
    returned holds either exactly what the background read returned, or
    the zero Reply with the error of a context that was cancelled before.
    Without a cancellation only the former is possible. *)
Theorem readWelcome_returns_read_or_context_error : forall io sched r,
  Cancel.caller (Cancel.run io sched (Cancel.init Cancel.readWelcome_body))
  = Some r ->
  r = io \/
  exists e, r = (Reply0, Some (ContextError e)) /\
            Cancel.done (Cancel.run io sched
                           (Cancel.init Cancel.readWelcome_body)) = Some e.
Proof.
  intros io sched r H.
  assert (Hinit : welcomed io (Cancel.init Cancel.readWelcome_body))
    by (unfold welcomed; cbn; auto).
  destruct (WelcomeFacts.run_welcomed io sched _ Hinit)
    as (_ & _ & [Hn | [Hio | (e & He & Hd)]]).
  - rewrite Hn in H. discriminate.
  - rewrite Hio in H. inversion H. now left.
  - rewrite He in H. inversion H. right. eauto.
Qed.

Lemma readWelcome_returns_read_or_context_error_witness :
  (mkReply 220 "Ready", @None error) = (mkReply 220 "Ready", None) \/
  exists e, (mkReply 220 "Ready", @None error) = (Reply0, Some (ContextError e)) /\
            Cancel.done (Cancel.run (mkReply 220 "Ready", None)
                           [Cancel.Unit; Cancel.Unit; Cancel.Receive]
                           (Cancel.init Cancel.readWelcome_body)) = Some e.
Proof.
  apply (readWelcome_returns_read_or_context_error
           (mkReply 220 "Ready", None)
           [Cancel.Unit; Cancel.Unit; Cancel.Receive]).
  reflexivity.
Defined.

(** ** Itoa and Atoi *)

Lemma digit_char_spec : forall d,
  0 <= d < 10 ->
  is_digit (digit_char d) = true /\ digit_val (digit_char d) = d.
Proof.
  intros d Hd.
  assert (H : d = 0 \/ d = 1 \/ d = 2 \/ d = 3 \/ d = 4 \/ d = 5 \/ d = 6 \/
              d = 7 \/ d = 8 \/ d = 9) by lia.
  repeat (destruct H as [-> | H]; [split; reflexivity|]).
  subst. split; reflexivity.
Qed.

Lemma format_digits_parse : forall f n acc,
  0 <= n < 10 ^ Z.of_nat (S f) ->
  exists k, 0 < k /\
    forall a, parse_digits (format_digits (S f) n acc) a
              = parse_digits acc (a * 10 ^ k + n).
Proof.
  induction f as [|f IH]; intros n acc Hn.
  - assert (Hlt : n < 10) by (change (10 ^ Z.of_nat 1) with 10 in Hn; lia).
    exists 1. split; [lia|]. intros a. cbn [format_digits].
    apply Z.ltb_lt in Hlt. rewrite Hlt. cbn [parse_digits].
    apply Z.ltb_lt in Hlt. rewrite Z.mod_small by lia.
    destruct (digit_char_spec n ltac:(lia)) as [-> ->].
    f_equal; lia.
  - remember (S f) as f1. cbn [format_digits].
    destruct (Z.ltb_spec n 10) as [Hlt|Hge].
    + exists 1. split; [lia|]. intros a. cbn [parse_digits].
      rewrite Z.mod_small by lia.
      destruct (digit_char_spec n ltac:(lia)) as [-> ->]. f_equal; lia.
    + subst f1.
      assert (Hdiv : 0 <= n / 10 < 10 ^ Z.of_nat (S f)).
      { split; [apply Z.div_pos; lia|].
        apply Z.div_lt_upper_bound; [lia|].
        replace (Z.of_nat (S (S f))) with (Z.of_nat (S f) + 1) in Hn by lia.
        rewrite Z.pow_add_r in Hn by lia. lia. }
      destruct (IH (n / 10) (String (digit_char (n mod 10)) acc) Hdiv)
        as (k & Hk & Hp).
      exists (k + 1). split; [lia|]. intros a. rewrite Hp.
      cbn [parse_digits].
      pose proof (Z.mod_pos_bound n 10 ltac:(lia)) as Hm.
      destruct (digit_char_spec (n mod 10) Hm) as [-> ->].
      f_equal. rewrite Z.pow_add_r by lia.
      pose proof (Z.div_mod n 10 ltac:(lia)). lia.
Qed.

Lemma format_digits_digits : forall f n acc,
  0 <= n -> all_digits acc = true ->
  all_digits (format_digits f n acc) = true.
Proof.
  induction f as [|f IH]; intros n acc Hn Hacc; [exact Hacc|].
  cbn [format_digits].
  pose proof (Z.mod_pos_bound n 10 ltac:(lia)) as Hm.
  destruct (digit_char_spec (n mod 10) Hm) as [Hd _].
  assert (Hacc' : all_digits (String (digit_char (n mod 10)) acc) = true)
    by (cbn [all_digits]; now rewrite Hd, Hacc).
  destruct (n <? 10); [exact Hacc'|].
  apply IH; [apply Z.div_pos; lia | exact Hacc'].
Qed.

Lemma format_digits_nonempty : forall f n acc,
  format_digits (S f) n acc <> EmptyString.
Proof.
  induction f as [|f IH]; intros n acc; cbn [format_digits].
  - destruct (n <? 10); discriminate.
  - destruct (n <? 10); [discriminate|]. apply IH.
Qed.

(** [Itoa] of a number that fits [int] is a decimal number, and [Atoi]
    reads it back. *)
Lemma Itoa_number : forall n,
  0 <= n <= maxInt ->
  number (Itoa n) /\ decimal (Itoa n) = n /\ Atoi (Itoa n) = (n, None).
Proof.
  intros n Hn. unfold Itoa.
  replace (n <? 0) with false by (symmetry; apply Z.ltb_ge; lia).
  assert (Hnum : number (format_digits 20 n "")).
  { split; [apply format_digits_nonempty|].
    apply format_digits_digits; [lia | reflexivity]. }
  assert (Hr : 0 <= n < 10 ^ Z.of_nat 20)
    by (unfold maxInt, intSize in Hn; simpl in *; lia).
  destruct (format_digits_parse 19 n "" Hr) as (k & Hk & Hp).
  assert (Hdec : decimal (format_digits 20 n "") = n).
  { unfold decimal. rewrite Hp. cbn [parse_digits]. lia. }
  split; [exact Hnum|]. split; [exact Hdec|].
  pose proof (Atoi_number _ Hnum) as Hfst. rewrite Hdec in Hfst.
  destruct Hnum as [Hne Hd].
  destruct (format_digits 20 n "") as [|c r] eqn:Hs; [contradiction|].
  cbn [all_digits] in Hd. apply andb_prop in Hd. destruct Hd as [Hc _].
  destruct (is_digit_not_sign c Hc) as [Hm Hpl].
  unfold Atoi. rewrite Hm, Hpl. cbn [orb].
  rewrite Hp. cbn [parse_digits].
  replace (0 * 10 ^ k + n) with n by lia.
  replace (maxInt <? n) with false by (symmetry; apply Z.ltb_ge; lia).
  reflexivity.
Qed.

(** ** Round trips of the EPSV and PASV bodies *)

Lemma contains_char_append : forall c a b,
  contains_char c (a ++ b) = (contains_char c a || contains_char c b)%bool.
Proof.
  induction a as [|x a IH]; intros b; cbn [append contains_char].
  - reflexivity.
  - rewrite IH. now rewrite orb_assoc.
Qed.

Lemma contains_char_drop : forall c k s,
  contains_char c s = false -> contains_char c (drop k s) = false.
Proof.
  induction k as [|k IH]; intros s H; [exact H|].
  destruct s as [|x s]; [reflexivity|].
  cbn [contains_char] in H. apply orb_false_elim in H. cbn [drop]. now apply IH.
Qed.

Lemma prefix_head_contains : forall c sep' t,
  String.prefix (String c sep') t = true -> contains_char c t = true.
Proof.
  intros c sep' t H. destruct (prefix_split _ _ H) as [r ->].
  cbn [append contains_char]. now rewrite Ascii.eqb_refl.
Qed.

Lemma drop_append_ge : forall k a b,
  (String.length a <= k)%nat -> drop k (a ++ b) = drop (k - String.length a) b.
Proof.
  induction k as [|k IH]; intros a b H.
  - destruct a; [reflexivity | simpl in H; lia].
  - destruct a as [|x a]; [reflexivity|]. cbn [append drop String.length].
    apply IH. simpl in H. lia.
Qed.

(** The occurrence of a separator after whose first byte that byte does
    not come again is the last one. *)
Lemma last_occurrence_no_later : forall c sep' pre tail,
  contains_char c (sep' ++ tail) = false ->
  last_occurrence (String c sep') (pre ++ String c sep' ++ tail)
                  (String.length pre).
Proof.
  intros c sep' pre tail Hno. split.
  - exists pre, tail. split; reflexivity.
  - intros j Hj. apply occurs_at_prefix in Hj. destruct Hj as [_ Hp].
    destruct (Nat.le_gt_cases j (String.length pre)) as [|Hgt]; [assumption|].
    exfalso. rewrite drop_append_ge in Hp by lia.
    destruct (j - String.length pre)%nat as [|m] eqn:Hm; [lia|].
    cbn [append drop] in Hp.
    apply prefix_head_contains in Hp.
    rewrite contains_char_drop in Hp by exact Hno. discriminate.
Qed.

Lemma parseEpsvReply_final_group : forall pre d post,
  d <> EmptyString ->
  contains_char "(" d = false -> contains_char "|" d = false ->
  contains_char "(" post = false -> contains_char "|" post = false ->
  parseEpsvReply (pre ++ "(|||" ++ d ++ "|)" ++ post) = Atoi d.
Proof.
  intros pre d post Hne Hd1 Hd2 Hp1 Hp2.
  set (msg := pre ++ "(|||" ++ d ++ "|)" ++ post).
  assert (Hstart : last_occurrence epsvStart msg (String.length pre)).
  { apply (last_occurrence_no_later "(" "|||" pre (d ++ "|)" ++ post)).
    rewrite !contains_char_append, Hd1, Hp1. reflexivity. }
  assert (Hmsg : msg = (pre ++ "(|||" ++ d) ++ "|)" ++ post)
    by (unfold msg; now rewrite !append_assoc).
  assert (Hend : last_occurrence epsvEnd msg
                   (String.length pre + String.length epsvStart
                    + String.length d)).
  { rewrite Hmsg.
    replace (String.length pre + String.length epsvStart + String.length d)%nat
      with (String.length (pre ++ "(|||" ++ d))
      by (rewrite !length_append; simpl; lia).
    apply (last_occurrence_no_later "|" ")" _ post).
    cbn [append contains_char]. rewrite Hp2. reflexivity. }
  assert (Hlt : (String.length pre + String.length epsvStart
                 < String.length pre + String.length epsvStart
                   + String.length d)%nat)
    by (destruct d; [contradiction | simpl; lia]).
  pose proof (Epsv_port msg _ _ Hstart Hend Hlt) as Hspec.
  rewrite (EpsvSpec_functional msg _ _ (parseEpsvReply_meets_spec msg) Hspec).
  f_equal. unfold slice.
  replace (String.length pre + String.length epsvStart + String.length d
           - (String.length pre + String.length epsvStart))%nat
    with (String.length d) by lia.
  unfold msg. rewrite <- (append_assoc pre "(|||").
  replace (String.length pre + String.length epsvStart)%nat
    with (String.length (pre ++ "(|||"))
    by (rewrite length_append; reflexivity).
  rewrite drop_append. apply take_append.
Qed.

Lemma all_digits_no_char : forall c s,
  is_digit c = false -> all_digits s = true -> contains_char c s = false.
Proof.
  intros c s Hc. induction s as [|x s IH]; intros Hs; [reflexivity|].
  cbn [all_digits] in Hs. apply andb_prop in Hs. destruct Hs as [Hx Hs].
  cbn [contains_char]. rewrite (IH Hs), orb_false_r.
  destruct (Ascii.eqb_spec x c) as [->|]; [congruence | reflexivity].
Qed.

(** Round trip of the EPSV body: whatever text comes first, also text
    that holds the delimiters, the port written in decimal inside the
    final "(|||" and "|)" is the port returned, when the text after the
    group holds neither an open parenthesis nor a bar. *)
Theorem parseEpsvReply_round_trip : forall pre port post,
  0 <= port <= maxInt ->
  contains_char "(" post = false -> contains_char "|" post = false ->
  parseEpsvReply (pre ++ "(|||" ++ Itoa port ++ "|)" ++ post) = (port, None).
Proof.
  intros pre port post Hport Hp1 Hp2.
  destruct (Itoa_number port Hport) as ([Hne Hd] & _ & Hatoi).
  rewrite parseEpsvReply_final_group; auto;
    apply all_digits_no_char; auto.
Qed.

Lemma parseEpsvReply_round_trip_witness :
  parseEpsvReply ("229 (|||1|) Entering Extended Passive Mode "
                  ++ "(|||" ++ Itoa 1031 ++ "|)" ++ ".")
  = (1031, None).
Proof.
  apply (parseEpsvReply_round_trip
           "229 (|||1|) Entering Extended Passive Mode " 1031 ".").
  - vm_compute. split; discriminate.
  - reflexivity.
  - reflexivity.
Defined.

Lemma ends_with_digit_drop : forall k s,
  (k < String.length s)%nat ->
  ends_with_digit (drop k s) = ends_with_digit s.
Proof.
  induction k as [|k IH]; intros s Hk; [reflexivity|].
  destruct s as [|c s]; [simpl in Hk; lia|].
  cbn [drop]. simpl in Hk. rewrite IH by lia.
  destruct s; [simpl in Hk; lia | reflexivity].
Qed.

Lemma drop_append_lt : forall k a b,
  (k <= String.length a)%nat -> drop k (a ++ b) = drop k a ++ b.
Proof.
  induction k as [|k IH]; intros a b Hk; [reflexivity|].
  destruct a as [|c a]; [simpl in Hk; lia|].
  cbn [append drop]. apply IH. simpl in Hk. lia.
Qed.

Lemma drop_nonempty : forall k s,
  (k < String.length s)%nat -> drop k s <> EmptyString.
Proof.
  induction k as [|k IH]; intros s Hk.
  - destruct s; [simpl in Hk; lia | discriminate].
  - destruct s as [|c s]; [simpl in Hk; lia|]. cbn [drop].
    apply IH. simpl in Hk. lia.
Qed.

(** In text without a comma that does not end in a digit, the run of
    digits at any place is followed by a byte that is no comma. *)
Lemma span_digits_plain : forall p s,
  p <> EmptyString -> contains_char "," p = false ->
  ends_with_digit p = false ->
  exists d x r, span_digits (p ++ s) = (d, String x r) /\
                Ascii.eqb x "," = false.
Proof.
  induction p as [|c p IH]; intros s Hne Hcomma Hend; [contradiction|].
  cbn [contains_char] in Hcomma. apply orb_false_elim in Hcomma.
  destruct Hcomma as [Hc Hcomma].
  cbn [append span_digits]. destruct (is_digit c) eqn:Hd.
  - destruct p as [|c2 p].
    + cbn [ends_with_digit] in Hend. congruence.
    + destruct (IH s) as (d & x & r & Hs & Hx);
        [discriminate | exact Hcomma | exact Hend |].
      rewrite Hs. eauto.
  - eauto.
Qed.

Lemma match_groups_plain : forall k p s,
  p <> EmptyString -> contains_char "," p = false ->
  ends_with_digit p = false ->
  match_groups (S k) (p ++ s) = None.
Proof.
  intros k p s Hne Hcomma Hend.
  destruct (span_digits_plain p s Hne Hcomma Hend) as (d & x & r & Hs & Hx).
  cbn [match_groups]. rewrite Hs.
  destruct d as [|c d]; [reflexivity|].
  destruct x as [[] [] [] [] [] [] [] []]; try reflexivity. discriminate Hx.
Qed.

Lemma no_sextet_in_plain_text : forall pre s k,
  contains_char "," pre = false -> ends_with_digit pre = false ->
  (k < String.length pre)%nat -> ~ sextet_at (pre ++ s) k.
Proof.
  intros pre s k Hcomma Hend Hk Hs.
  destruct (sextet_at_match _ _ Hs) as [_ Hm]. apply Hm.
  rewrite drop_append_lt by lia.
  apply match_groups_plain.
  - now apply drop_nonempty.
  - now apply contains_char_drop.
  - now rewrite ends_with_digit_drop.
Qed.

(** Round trip of the PASV body: six byte values written in decimal and
    separated by commas are read back as host and port, between any
    leading text that has no comma and does not end in a digit and any
    trailing text that does not start with a digit. *)
Theorem parsePasvReply_round_trip : forall pre post h1 h2 h3 h4 p1 p2,
  Forall (fun n => 0 <= n < 256) [h1; h2; h3; h4; p1; p2] ->
  contains_char "," pre = false -> ends_with_digit pre = false ->
  starts_with_digit post = false ->
  parsePasvReply
    (pre ++ Join [Itoa h1; Itoa h2; Itoa h3; Itoa h4; Itoa p1; Itoa p2] ","
         ++ post)
  = (Some {| addrIP := [h1; h2; h3; h4]; addrPort := p1 * 256 + p2 |}, None).
Proof.
  intros pre post h1 h2 h3 h4 p1 p2 Hb Hcomma Hend Hpost.
  assert (Hn : forall n, 0 <= n < 256 ->
                 number (Itoa n) /\ component_byte (Itoa n) = n).
  { intros n Hr.
    destruct (Itoa_number n) as (Hnum & Hdec & _);
      [unfold maxInt, intSize; simpl; lia|].
    split; [exact Hnum|].
    rewrite component_byte_small; [exact Hdec | exact Hnum | lia]. }
  split_Forall.
  rewrite parsePasvReply_leftmost.
  - repeat match goal with
           | H : 0 <= ?n < 256 |- _ =>
               rewrite (proj2 (Hn n H)); clear H
           end.
    reflexivity.
  - repeat constructor; apply Hn; assumption.
  - intros k Hk. now apply no_sextet_in_plain_text.
  - exact Hpost.
Qed.

Lemma parsePasvReply_round_trip_witness :
  parsePasvReply
    ("227 Entering Passive Mode ("
     ++ Join [Itoa 192; Itoa 0; Itoa 2; Itoa 47; Itoa 4; Itoa 7] ","
     ++ ").")
  = (Some {| addrIP := [192; 0; 2; 47]; addrPort := 4 * 256 + 7 |}, None).
Proof.
  apply (parsePasvReply_round_trip "227 Entering Passive Mode (" ").").
  - repeat constructor; lia.
  - reflexivity.
  - reflexivity.
  - reflexivity.
Defined.

(** ** The passive address *)






(** In the first revision the EPSV branch is taken only when the network
    name of the remote address is "tcp6", which a TCP address never
    reports; the address is then of another type and the type assertion
    panics. So that revision never returns an address when it takes the
    EPSV branch: it returns an error or panics. *)
Theorem obtainPassiveAddress_rev1_no_EPSV_address : forall c w r w',
  Network (RemoteAddr c) = "tcp6" ->
  obtainPassiveAddress_rev1 c w = (Done r, w') ->
  fst r = None.
Proof.
  intros c w r w' Hnet H. unfold obtainPassiveAddress_rev1 in H.
  rewrite Hnet in H. cbn [String.eqb Ascii.eqb Bool.eqb andb] in H.
  destruct (RemoteAddr c) as [a|n] eqn:Hr; [discriminate Hnet|].
  unfold obtainPassiveAddress6, bind in H.
  destruct (sendCommand "EPSV" w) as [[[reply [e|]]|] w1];
    try (inversion H; reflexivity).
  destruct (negb (Code reply =? CodeExtendedPassive));
    [inversion H; reflexivity|].
  destruct (parseEpsvReply (Msg reply)) as [port [e|]];
    [inversion H; reflexivity|].
  rewrite Hr in H. discriminate H.
Qed.

Lemma obtainPassiveAddress_rev1_no_EPSV_address_witness :
  fst (@None TCPAddr, Some (ReplyError (mkReply 500 "EPSV not understood")))
  = None.
Proof.
  apply (obtainPassiveAddress_rev1_no_EPSV_address peer_tcp6
           (world0 ["500 EPSV not understood"; pasv_line]) _
           (mkWorld [pasv_line] (TransportError "EOF") None None None
              [EvSend "EPSV"; EvReply])).
  - reflexivity.
  - reflexivity.
Defined.

(** ** transfer, Text and Binary *)

Section Transfer.

Variable c : Client.
Variables command dataType : string.

(** The peer does not report the network name "tcp6", so no EPSV is
    sent first. *)
Hypothesis Hnet : String.eqb (Network (RemoteAddr c)) "tcp6" = false.












End Transfer.








